(** * Task lifecycle manager of Sae: a shallow embedding

    This development embeds [src/sae/services/task_manager.py] together
    with the Pydantic records of [src/sae/models/a2a.py] it manipulates,
    and states the properties of the task lifecycle over that embedding.

    Python objects that the manager mutates or shares are modelled with
    their identity:
    - [Artifact] objects live in an object heap and are held by reference
      ([add_artifact] assigns [artifact.index] on the caller's object and
      stores that very object);
    - [asyncio.Queue] objects live in a queue heap and are compared by
      identity ([list.remove]);
    - there is exactly one [Task] object per key of [_tasks], it is never
      replaced, so the map itself is the heap of [Task] objects;
    - [Message] and [TaskStatus] objects are never mutated by the manager
      (a status is replaced, not updated), they are plain values.
    Pydantic builds a new list or dict when it validates a [list[...]]
    or [dict[...]] field and keeps model instances as they are, so a
    [TaskResult] owns its own list of artifact references, which point to
    the artifact objects of the task.

    Every method body runs atomically: the event loop is single threaded,
    [put] on an unbounded queue never suspends, hence no coroutine is ever
    suspended while it holds [_lock], and acquiring a free lock does not
    suspend either.  The only real suspension points are the [yield]s and
    the [queue.get()] of [subscribe]. *)

From stdpp Require Import gmap strings list fin_maps.
From Stdlib Require Import ZArith.

Local Open Scope Z_scope.

(** ** Data model ([sae.models.a2a]) *)

Inductive TaskState :=
  | SUBMITTED
  | WORKING
  | INPUT_REQUIRED
  | COMPLETED
  | FAILED
  | CANCELED.

#[global] Instance TaskState_eq_dec : EqDecision TaskState.
Proof. solve_decision. Defined.

Definition TaskState_to_nat (st : TaskState) : nat :=
  match st with
  | SUBMITTED => 0
  | WORKING => 1
  | INPUT_REQUIRED => 2
  | COMPLETED => 3
  | FAILED => 4
  | CANCELED => 5
  end%nat.

Definition TaskState_of_nat (n : nat) : option TaskState :=
  match n with
  | 0 => Some SUBMITTED
  | 1 => Some WORKING
  | 2 => Some INPUT_REQUIRED
  | 3 => Some COMPLETED
  | 4 => Some FAILED
  | 5 => Some CANCELED
  | _ => None
  end%nat.

#[global] Instance TaskState_countable : Countable TaskState.
Proof.
  apply (inj_countable TaskState_to_nat TaskState_of_nat).
  by intros [].
Defined.

(** [Any]: the JSON-like values carried by [dict[str, Any]] fields. *)
#[warnings="-register-all"] Inductive Any :=
  | ANone
  | ABool (b : bool)
  | AInt (z : Z)
  | AStr (s : string)
  | AList (l : list Any)
  | ADict (d : list (string * Any)).

Abbreviation Dict := (gmap string Any).

Inductive Part :=
  | TextPart (text : string)
  | FilePart (file : Dict)
  | DataPart (data : Dict).

Inductive Role := user | agent.

Record Message := mkMessage {
  role : Role;
  parts : list Part;
  msg_metadata : Dict
}.

Record TaskStatus := mkTaskStatus {
  state : TaskState;
  message : option Message;
  timestamp : Z
}.

Record Artifact := mkArtifact {
  name : string;
  description : option string;
  art_parts : list Part;
  index : Z;
  art_metadata : Dict
}.

(** Addresses of [Artifact] objects and of [asyncio.Queue] objects. *)
Abbreviation aref := nat.
Abbreviation qref := nat.

Record Task := mkTask {
  id : string;
  status : TaskStatus;
  artifacts : list aref;
  history : list Message;
  metadata : Dict
}.

Record TaskResult := mkTaskResult {
  res_id : string;
  res_status : TaskStatus;
  res_artifacts : list aref;
  res_metadata : Dict
}.

(** Attribute assignments. *)
Definition set_index (n : Z) (a : Artifact) : Artifact :=
  mkArtifact (name a) (description a) (art_parts a) n (art_metadata a).

Definition set_status (st : TaskStatus) (t : Task) : Task :=
  mkTask (id t) st (artifacts t) (history t) (metadata t).

Definition history_append (m : Message) (t : Task) : Task :=
  mkTask (id t) (status t) (artifacts t) (history t ++ [m]) (metadata t).

Definition artifacts_append (a : aref) (t : Task) : Task :=
  mkTask (id t) (status t) (artifacts t ++ [a]) (history t) (metadata t).

(** ** Errors and the state of the program *)

Inductive Error :=
  | TaskNotFoundError (task_id : string)
  | InvalidStateTransitionError (current_state target : TaskState)
  | KeyError (key : string)
  | ValueError.

Inductive result (A : Type) :=
  | Ok (a : A)
  | Raise (e : Error).
Arguments Ok {A} a.
Arguments Raise {A} e.

(** [objects] and [queues] are the two heaps, [tasks] and [subscribers]
    are the attributes [_tasks] and [_subscribers] of the manager. *)
Record State := mkState {
  objects : list Artifact;
  queues : list (list TaskResult);
  tasks : gmap string Task;
  subscribers : gmap string (list qref)
}.

(** [TaskManager()] on an empty heap. *)
Definition init : State := mkState [] [] ∅ ∅.

Definition set_objects (o : list Artifact) (s : State) : State :=
  mkState o (queues s) (tasks s) (subscribers s).
Definition set_queues (q : list (list TaskResult)) (s : State) : State :=
  mkState (objects s) q (tasks s) (subscribers s).
Definition set_tasks (t : gmap string Task) (s : State) : State :=
  mkState (objects s) (queues s) t (subscribers s).
Definition set_subscribers (sb : gmap string (list qref)) (s : State) : State :=
  mkState (objects s) (queues s) (tasks s) sb.

(** State and exception monad: a raised exception keeps the mutations
    made before it. *)
Definition M (A : Type) : Type := State → result A * State.

#[global] Instance M_ret : MRet M := λ A a s, (Ok a, s).
#[global] Instance M_bind : MBind M := λ A B f m s,
  match m s with
  | (Ok a, s') => f a s'
  | (Raise e, s') => (Raise e, s')
  end.

Definition raise {A} (e : Error) : M A := λ s, (Raise e, s).
Definition gets {A} (f : State → A) : M A := λ s, (Ok (f s), s).
Definition modify (f : State → State) : M unit := λ s, (Ok tt, f s).

(** ** The state machine *)

Definition VALID_TRANSITIONS : gmap TaskState (gset TaskState) :=
  <[SUBMITTED := {[WORKING; CANCELED; FAILED]}]>
  (<[WORKING := {[COMPLETED; FAILED; CANCELED; INPUT_REQUIRED]}]>
  (<[INPUT_REQUIRED := {[WORKING; CANCELED; FAILED]}]>
  (<[COMPLETED := ∅]>
  (<[FAILED := ∅]>
  (<[CANCELED := ∅]> ∅))))).

(** [state in VALID_TRANSITIONS.get(current_state, set())] *)
Definition transition_allowed (current_state target : TaskState) : bool :=
  bool_decide (target ∈ default ∅ (VALID_TRANSITIONS !! current_state)).

(** The terminal states tested by [subscribe]. *)
Definition is_terminal (st : TaskState) : bool :=
  bool_decide (st ∈ ({[COMPLETED; FAILED; CANCELED]} : gset TaskState)).

(** ** The task manager ([class TaskManager]) *)

(** [self._tasks[task_id]] *)
Definition tasks_getitem (task_id : string) : M Task := λ s,
  match tasks s !! task_id with
  | Some task => (Ok task, s)
  | None => (Raise (KeyError task_id), s)
  end.

(** [self._subscribers[task_id]] *)
Definition subscribers_getitem (task_id : string) : M (list qref) := λ s,
  match subscribers s !! task_id with
  | Some qs => (Ok qs, s)
  | None => (Raise (KeyError task_id), s)
  end.

(** Writing the fields of the [Task] object stored under [task_id]. *)
Definition tasks_store (task_id : string) (task : Task) : M unit :=
  modify (λ s, set_tasks (<[task_id := task]> (tasks s)) s).

(** [queue.put(result)] on an unbounded queue. *)
Definition queue_put (result : TaskResult) (s : State) (queue : qref) : State :=
  set_queues (alter (λ items, items ++ [result]) queue (queues s)) s.

(** [TaskResult(id=task.id, status=task.status, artifacts=task.artifacts,
    metadata=task.metadata)] *)
Definition _task_to_result (task : Task) : TaskResult :=
  mkTaskResult (id task) (status task) (artifacts task) (metadata task).

(** One [TaskResult] object is put on every queue of the task, in the
    order of the list. *)
Definition _notify_subscribers (task_id : string) : M unit := λ s,
  match subscribers s !! task_id with
  | None => (Ok tt, s)
  | Some qs =>
      (task ← tasks_getitem task_id;
       let result := _task_to_result task in
       modify (λ s, foldl (queue_put result) s qs)) s
  end.

(** [create_task]: [uuid] is the value of [str(uuid4())] and [now] the
    value of [datetime.utcnow()] at the call; [metadata or {}] is
    [default ∅ metadata]. *)
Definition create_task (message : Message) (task_id : option string)
    (metadata : option Dict) (uuid : string) (now : Z) : M Task :=
  let task_id := default uuid task_id in
  existing ← gets (λ s, tasks s !! task_id);
  match existing with
  | Some existing_task =>
      let existing_task := history_append message existing_task in
      _ ← tasks_store task_id existing_task;
      mret existing_task
  | None =>
      let task :=
        mkTask task_id (mkTaskStatus SUBMITTED None now) [] [message]
               (default ∅ metadata) in
      _ ← tasks_store task_id task;
      _ ← modify (λ s, set_subscribers (<[task_id := []]> (subscribers s)) s);
      mret task
  end.

(** [task.status.state] *)
Definition status_state (task : Task) : TaskState := state (status task).

Definition get_task (task_id : string) : M Task := λ s,
  match tasks s !! task_id with
  | None => (Raise (TaskNotFoundError task_id), s)
  | Some task => (Ok task, s)
  end.

(** [update_status]: the guard comes before every assignment.  The test
    [if message:] succeeds for every [Message] object, a Pydantic model
    having neither [__bool__] nor [__len__], so it is the test
    [message is not None]. *)
Definition update_status (task_id : string) (state : TaskState)
    (message : option Message) (now : Z) : M Task := λ s,
  match tasks s !! task_id with
  | None => (Raise (TaskNotFoundError task_id), s)
  | Some _ =>
      (task ← tasks_getitem task_id;
       let current_state := status_state task in
       if negb (transition_allowed current_state state)
       then raise (InvalidStateTransitionError current_state state)
       else
         let task := set_status (mkTaskStatus state message now) task in
         let task :=
           match message with
           | Some m => history_append m task
           | None => task
           end in
         _ ← tasks_store task_id task;
         _ ← _notify_subscribers task_id;
         mret task) s
  end.

(** [add_artifact]: [artifact.index = len(task.artifacts)] is an update
    of the object at address [artifact] in the heap, and that address is
    what [task.artifacts.append(artifact)] stores.  (A reference handed
    over by a Python caller always denotes a live object; on an address
    outside the heap the update does nothing.) *)
Definition add_artifact (task_id : string) (artifact : aref) : M Task := λ s,
  match tasks s !! task_id with
  | None => (Raise (TaskNotFoundError task_id), s)
  | Some _ =>
      (task ← tasks_getitem task_id;
       _ ← modify (λ s,
             set_objects
               (alter (set_index (Z.of_nat (length (artifacts task))))
                      artifact (objects s)) s);
       let task := artifacts_append artifact task in
       _ ← tasks_store task_id task;
       _ ← _notify_subscribers task_id;
       mret task) s
  end.

Definition cancel_task (task_id : string) (now : Z) : M Task :=
  update_status task_id CANCELED
    (Some (mkMessage agent [TextPart "Task was canceled by request."] ∅)) now.

Definition fail_task (task_id : string) (error_message : string) (now : Z)
    : M Task :=
  update_status task_id FAILED
    (Some (mkMessage agent [TextPart ("Task failed: " +:+ error_message)] ∅))
    now.

Definition complete_task (task_id : string) (message : option Message)
    (now : Z) : M Task :=
  update_status task_id COMPLETED message now.

(** ** [subscribe]: an asynchronous generator

    Calling [subscribe(task_id)] only builds the generator object; its
    body runs when the consumer awaits [__anext__].  A generator is
    modelled by the point where it is suspended. *)

Inductive Gen :=
  | GenCreated (task_id : string)
    (** body not started yet *)
  | GenListening (task_id : string) (queue : qref)
    (** suspended at the first [yield], or inside [queue.get()] *)
  | GenYielded (task_id : string) (queue : qref) (result : TaskResult)
    (** suspended at the [yield result] of the loop *)
  | GenClosed.

(** What awaiting [__anext__] gives: a value, nothing yet (the queue is
    empty and the consumer stays suspended), or the end of the stream. *)
Inductive Outcome :=
  | Yield (result : TaskResult)
  | Pending
  | StopAsyncIteration.

(** [l.remove(x)]: drops the first occurrence, [ValueError] when absent. *)
Fixpoint list_remove (x : qref) (l : list qref) : option (list qref) :=
  match l with
  | [] => None
  | y :: l' =>
      if decide (x = y) then Some l' else cons y <$> list_remove x l'
  end.

(** The [finally] block of [subscribe]. *)
Definition subscribe_finally (task_id : string) (queue : qref) : M unit := λ s,
  match subscribers s !! task_id with
  | None => (Ok tt, s)
  | Some qs =>
      match list_remove queue qs with
      | None => (Raise ValueError, s)
      | Some qs' =>
          (Ok tt, set_subscribers (<[task_id := qs']> (subscribers s)) s)
      end
  end.

(** [try: m finally: fin] when [m] raises: [fin] runs and the exception
    propagates, unless [fin] raises itself. *)
Definition on_exception {A} (m : M A) (fin : M unit) : M A := λ s,
  match m s with
  | (Ok a, s') => (Ok a, s')
  | (Raise e, s') =>
      match fin s' with
      | (Ok _, s'') => (Raise e, s'')
      | (Raise e', s'') => (Raise e', s'')
      end
  end.

(** [queue.get()]: [None] stands for an empty queue, on which the
    coroutine stays suspended. *)
Definition queue_get (queue : qref) : M (option TaskResult) := λ s,
  match queues s !! queue with
  | Some (result :: items) =>
      (Ok (Some result), set_queues (<[queue := items]> (queues s)) s)
  | _ => (Ok None, s)
  end.

(** One round of the [while True] loop, up to its [yield]. *)
Definition subscribe_loop (task_id : string) (queue : qref)
    : M (Outcome * Gen) :=
  item ← on_exception (queue_get queue) (subscribe_finally task_id queue);
  match item with
  | None => mret (Pending, GenListening task_id queue)
  | Some result => mret (Yield result, GenYielded task_id queue result)
  end.

(** [await gen.__anext__()].  When it raises, the generator is closed. *)
Definition anext (g : Gen) : M (Outcome * Gen) :=
  match g with
  | GenCreated task_id => λ s,
      match tasks s !! task_id with
      | None => (Raise (TaskNotFoundError task_id), s)
      | Some _ =>
          (let queue := length (queues s) in
           _ ← modify (λ s, set_queues (queues s ++ [[]]) s);
           qs ← subscribers_getitem task_id;
           _ ← modify (λ s,
                 set_subscribers
                   (<[task_id := qs ++ [queue]]> (subscribers s)) s);
           task ← on_exception (tasks_getitem task_id)
                               (subscribe_finally task_id queue);
           mret (Yield (_task_to_result task), GenListening task_id queue)) s
      end
  | GenListening task_id queue => subscribe_loop task_id queue
  | GenYielded task_id queue result =>
      if is_terminal (state (res_status result))
      then
        _ ← subscribe_finally task_id queue;
        mret (StopAsyncIteration, GenClosed)
      else subscribe_loop task_id queue
  | GenClosed => mret (StopAsyncIteration, GenClosed)
  end.

(** The consumer abandons the stream: [aclose()] at a [yield], or the
    cancellation of a consumer suspended in [queue.get()]. *)
Definition aclose (g : Gen) : M Gen :=
  match g with
  | GenCreated _ | GenClosed => mret GenClosed
  | GenListening task_id queue | GenYielded task_id queue _ =>
      _ ← subscribe_finally task_id queue;
      mret GenClosed
  end.

(** ** The manager and its clients

    A [System] is the manager together with the generators its clients
    hold; a [Call] is one atomic action of a client: building an
    [Artifact] object, calling a method of the manager, or driving a
    generator.  ([list_tasks] only reads [_tasks] and is left out.)
    Generators are named by their position in [gens]; a position that
    names no generator has no counterpart in Python and does nothing. *)

Record System := mkSystem {
  mgr : State;
  gens : list Gen
}.

Definition init_system : System := mkSystem init [].

Inductive Call :=
  | NewArtifact (a : Artifact)
  | CreateTask (message : Message) (task_id : option string)
      (metadata : option Dict) (uuid : string) (now : Z)
  | GetTask (task_id : string)
  | UpdateStatus (task_id : string) (state : TaskState)
      (message : option Message) (now : Z)
  | AddArtifact (task_id : string) (artifact : aref)
  | CancelTask (task_id : string) (now : Z)
  | FailTask (task_id : string) (error_message : string) (now : Z)
  | CompleteTask (task_id : string) (message : option Message) (now : Z)
  | Subscribe (task_id : string)
  | Anext (g : nat)
  | Aclose (g : nat).

Inductive Reply :=
  | RTask (task : Task)
  | RArtifact (artifact : aref)
  | RGen (g : nat)
  | ROutcome (o : Outcome)
  | RNone.

Definition lift_task (m : M Task) (sys : System) : result Reply * System :=
  match m (mgr sys) with
  | (Ok task, s) => (Ok (RTask task), mkSystem s (gens sys))
  | (Raise e, s) => (Raise e, mkSystem s (gens sys))
  end.

Definition call (c : Call) (sys : System) : result Reply * System :=
  match c with
  | NewArtifact a =>
      (Ok (RArtifact (length (objects (mgr sys)))),
       mkSystem (set_objects (objects (mgr sys) ++ [a]) (mgr sys)) (gens sys))
  | CreateTask message task_id metadata uuid now =>
      lift_task (create_task message task_id metadata uuid now) sys
  | GetTask task_id => lift_task (get_task task_id) sys
  | UpdateStatus task_id state message now =>
      lift_task (update_status task_id state message now) sys
  | AddArtifact task_id artifact =>
      lift_task (add_artifact task_id artifact) sys
  | CancelTask task_id now => lift_task (cancel_task task_id now) sys
  | FailTask task_id error_message now =>
      lift_task (fail_task task_id error_message now) sys
  | CompleteTask task_id message now =>
      lift_task (complete_task task_id message now) sys
  | Subscribe task_id =>
      (Ok (RGen (length (gens sys))),
       mkSystem (mgr sys) (gens sys ++ [GenCreated task_id]))
  | Anext g =>
      match gens sys !! g with
      | None => (Ok RNone, sys)
      | Some gen =>
          match anext gen (mgr sys) with
          | (Ok (o, gen'), s) =>
              (Ok (ROutcome o), mkSystem s (<[g := gen']> (gens sys)))
          | (Raise e, s) =>
              (Raise e, mkSystem s (<[g := GenClosed]> (gens sys)))
          end
      end
  | Aclose g =>
      match gens sys !! g with
      | None => (Ok RNone, sys)
      | Some gen =>
          match aclose gen (mgr sys) with
          | (Ok gen', s) => (Ok RNone, mkSystem s (<[g := gen']> (gens sys)))
          | (Raise e, s) =>
              (Raise e, mkSystem s (<[g := GenClosed]> (gens sys)))
          end
      end
  end.

(** Running a client script; exceptions are caught by the client. *)
Definition run (calls : list Call) (sys : System) : System :=
  foldl (λ sys c, (call c sys).2) sys calls.

Inductive reachable : System → Prop :=
  | reachable_init : reachable init_system
  | reachable_call c sys : reachable sys → reachable (call c sys).2.

(** ** The transition table of the specification *)

(** The table as the specification writes it: source, allowed target. *)
Definition transition_table : list (TaskState * TaskState) :=
  [ (SUBMITTED, WORKING); (SUBMITTED, CANCELED); (SUBMITTED, FAILED);
    (WORKING, COMPLETED); (WORKING, FAILED); (WORKING, CANCELED);
    (WORKING, INPUT_REQUIRED);
    (INPUT_REQUIRED, WORKING); (INPUT_REQUIRED, CANCELED);
    (INPUT_REQUIRED, FAILED) ].

(** ** Auxiliary definitions *)

(** Delivery of one snapshot to a list of queues. *)
Definition broadcast (result : TaskResult) (qs : list qref) (s : State)
    : State :=
  foldl (queue_put result) s qs.

(** The task object after a successful [update_status]. *)
Definition updated_task (state : TaskState) (message : option Message)
    (now : Z) (task : Task) : Task :=
  let task := set_status (mkTaskStatus state message now) task in
  match message with
  | Some m => history_append m task
  | None => task
  end.

(** ** Sample values *)

Definition hello : Message := mkMessage user [TextPart "hello"] ∅.
Definition done_msg : Message := mkMessage agent [TextPart "done"] ∅.
Definition report : Artifact :=
  mkArtifact "report" (Some "Analysis report") [TextPart "# Report"] 0 ∅.

(** A manager holding the single task ["t1"], just created. *)
Definition sys_t1 : System :=
  run [CreateTask hello (Some "t1") None "uuid-0" 100] init_system.

Definition task_t1 : Task :=
  mkTask "t1" (mkTaskStatus SUBMITTED None 100) [] [hello] ∅.

(** How the manager lets a stored task evolve: identity and metadata are
    kept, history and artifacts only grow, and the status of a task in a
    terminal state is kept. *)
Definition evolves (task task' : Task) : Prop :=
  id task' = id task
  ∧ metadata task' = metadata task
  ∧ history task `prefix_of` history task'
  ∧ artifacts task `prefix_of` artifacts task'
  ∧ (is_terminal (status_state task) = true → status task' = status task).

(** [task_id] is still stored in [s'], as an evolution of [task]. *)
Definition still_stored (task_id : string) (task : Task) (s' : State) : Prop :=
  ∃ task', tasks s' !! task_id = Some task' ∧ evolves task task'.

(** The queue a suspended generator has registered, and under which id. *)
Definition gen_queue (g : Gen) : option (string * qref) :=
  match g with
  | GenListening task_id queue | GenYielded task_id queue _ =>
      Some (task_id, queue)
  | GenCreated _ | GenClosed => None
  end.

(** [queue] is an allocated queue listed in [_subscribers[task_id]]. *)
Definition registered (task_id : string) (queue : qref) (s : State) : Prop :=
  (queue < length (queues s))%nat
  ∧ ∃ qs, subscribers s !! task_id = Some qs ∧ queue ∈ qs.

(** The invariant of the manager and its generators: [_tasks] and
    [_subscribers] have the same keys, every suspended generator has its
    queue registered, and no two generators share a queue. *)
Record consistent (sys : System) : Prop := mkConsistent {
  consistent_keys :
    dom (tasks (mgr sys)) = dom (subscribers (mgr sys));
  consistent_registered :
    ∀ g gen task_id queue,
      gens sys !! g = Some gen →
      gen_queue gen = Some (task_id, queue) →
      registered task_id queue (mgr sys);
  consistent_distinct :
    ∀ g1 g2 gen1 gen2 id1 id2 queue,
      gens sys !! g1 = Some gen1 →
      gens sys !! g2 = Some gen2 →
      gen_queue gen1 = Some (id1, queue) →
      gen_queue gen2 = Some (id2, queue) →
      g1 = g2
}.

(** The exceptions of the interface table: which error each call may
    raise. *)
Definition may_raise (c : Call) (e : Error) : Prop :=
  match c with
  | GetTask task_id | AddArtifact task_id _ => e = TaskNotFoundError task_id
  | UpdateStatus task_id state _ _ =>
      e = TaskNotFoundError task_id
      ∨ ∃ from, e = InvalidStateTransitionError from state
  | CancelTask task_id _ =>
      e = TaskNotFoundError task_id
      ∨ ∃ from, e = InvalidStateTransitionError from CANCELED
  | FailTask task_id _ _ =>
      e = TaskNotFoundError task_id
      ∨ ∃ from, e = InvalidStateTransitionError from FAILED
  | CompleteTask task_id _ _ =>
      e = TaskNotFoundError task_id
      ∨ ∃ from, e = InvalidStateTransitionError from COMPLETED
  | Anext _ => ∃ task_id, e = TaskNotFoundError task_id
  | NewArtifact _ | CreateTask _ _ _ _ _ | Subscribe _ | Aclose _ => False
  end.

(** The convenience methods as the specification words them. *)
Definition standardCancelMessage : Message :=
  mkMessage agent [TextPart "Task was canceled by request."] ∅.

Definition messageWithReason (reason : string) : Message :=
  mkMessage agent [TextPart ("Task failed: " +:+ reason)] ∅.

Definition spec_cancelTask (task_id : string) (now : Z) : M Task :=
  update_status task_id CANCELED (Some standardCancelMessage) now.

Definition spec_failTask (task_id reason : string) (now : Z) : M Task :=
  update_status task_id FAILED (Some (messageWithReason reason)) now.

Definition spec_completeTask (task_id : string) (message : option Message)
    (now : Z) : M Task :=
  update_status task_id COMPLETED message now.

(** A task driven to [FAILED], and a client script run on it. *)
Definition script_failed : list Call :=
  [ CreateTask hello (Some "t1") (Some {[ "source" := AStr "api" ]})
      "uuid-0" 100;
    NewArtifact report;
    UpdateStatus "t1" WORKING None 101;
    FailTask "t1" "boom" 102 ].

Definition sys_failed : System := run script_failed init_system.

Definition task_failed : Task :=
  mkTask "t1" (mkTaskStatus FAILED (Some (messageWithReason "boom")) 102)
    [] [hello; messageWithReason "boom"] {[ "source" := AStr "api" ]}.

Definition script_after : list Call :=
  [ UpdateStatus "t1" WORKING None 103;
    CancelTask "t1" 104;
    CompleteTask "t1" (Some done_msg) 105;
    CreateTask done_msg (Some "t1") (Some ∅) "uuid-1" 106;
    AddArtifact "t1" 0%nat;
    Subscribe "t1";
    Anext 0%nat;
    FailTask "t1" "again" 107 ].

(** What a method of the manager may do to the registry: no queue is
    allocated, the keys stay aligned and no list of subscribers changes. *)
Definition keeps_registry (s s' : State) : Prop :=
  length (queues s') = length (queues s)
  ∧ dom (tasks s') = dom (subscribers s')
  ∧ ∀ task_id qs,
      subscribers s !! task_id = Some qs →
      subscribers s' !! task_id = Some qs.

(** What a step of a generator may do to the registry: the queues of the
    other generators stay registered, and the queue the generator holds
    afterwards is registered and is either the one it held or a new one. *)
Definition gen_step_ok (gen : Gen) (s : State) (gen' : Gen) (s' : State)
    : Prop :=
  (length (queues s) ≤ length (queues s'))%nat
  ∧ dom (tasks s') = dom (subscribers s')
  ∧ (∀ task_id queue,
       registered task_id queue s →
       snd <$> gen_queue gen ≠ Some queue →
       registered task_id queue s')
  ∧ (∀ task_id queue,
       gen_queue gen' = Some (task_id, queue) →
       registered task_id queue s'
       ∧ (gen_queue gen = Some (task_id, queue)
          ∨ (length (queues s) ≤ queue)%nat)).

(** [artifacts[i].index == i] at every position of every stored task. *)
Definition indexed (s : State) : Prop :=
  ∀ task_id task i artifact,
    tasks s !! task_id = Some task →
    artifacts task !! i = Some artifact →
    index <$> objects s !! artifact = Some (Z.of_nat i).

(** [artifact] is a live object that no stored task holds yet. *)
Definition unattached (artifact : aref) (s : State) : bool :=
  bool_decide (artifact < length (objects s))%nat
  && bool_decide (map_Forall (λ _ task, artifact ∉ artifacts task) (tasks s)).

(** Every [add_artifact] of the script receives an object that is
    unattached when the call is made. *)
Fixpoint fresh_artifacts (calls : list Call) (sys : System) : bool :=
  match calls with
  | [] => true
  | c :: calls =>
      match c with
      | AddArtifact _ artifact => unattached artifact (mgr sys)
      | _ => true
      end
      && fresh_artifacts calls (call c sys).2
  end.

(** One artifact object handed to [add_artifact] twice. *)
Definition script_same_artifact : list Call :=
  [ CreateTask hello (Some "t1") None "uuid-0" 100;
    NewArtifact report;
    AddArtifact "t1" 0%nat;
    AddArtifact "t1" 0%nat ].

(** Two artifact objects, both built with [index = 7]; the first one is
    attached to the task ["t1"]. *)
Definition script_two_artifacts : list Call :=
  [ CreateTask hello (Some "t1") None "uuid-0" 100;
    NewArtifact (set_index 7 report);
    NewArtifact (set_index 7 report);
    AddArtifact "t1" 0%nat ].

(** A task driven to [COMPLETED] before anybody subscribes. *)
Definition sys_completed : System :=
  run [ CreateTask hello (Some "t1") None "uuid-0" 100;
        NewArtifact report;
        UpdateStatus "t1" WORKING None 101;
        UpdateStatus "t1" COMPLETED (Some done_msg) 102;
        Subscribe "t1" ] init_system.

(** A subscriber that is present from the creation of the task on. *)
Definition sys_watched : System :=
  run [ CreateTask hello (Some "t1") None "uuid-0" 100;
        Subscribe "t1" ] init_system.

(** The snapshots the consumer of generator [g] receives when it awaits
    [__anext__] [n] times in a row. *)
Fixpoint drain (n : nat) (g : nat) (sys : System)
    : list (result Reply) * System :=
  match n with
  | O => ([], sys)
  | S n =>
      let '(r, sys') := call (Anext g) sys in
      let '(rs, sys'') := drain n g sys' in
      (r :: rs, sys'')
  end.

(** Awaiting [__anext__] [n] times in a row on one generator, while
    nothing else runs. *)
Fixpoint consume (n : nat) (g : Gen) (s : State)
    : list (result Outcome) * Gen * State :=
  match n with
  | O => ([], g, s)
  | S n =>
      match anext g s with
      | (Ok (o, g'), s') =>
          let '(os, g'', s'') := consume n g' s' in (Ok o :: os, g'', s'')
      | (Raise e, s') =>
          let '(os, g'', s'') := consume n GenClosed s' in
          (Raise e :: os, g'', s'')
      end
  end.

(** A generator that goes to [queue.get()] when it is resumed. *)
Definition resumes_in_loop (g : Gen) (task_id : string) (queue : qref)
    : Prop :=
  g = GenListening task_id queue
  ∨ ∃ result,
      g = GenYielded task_id queue result
      ∧ is_terminal (state (res_status result)) = false.

(** ** The life of a stored task *)

(** An edge of the state machine. *)
Definition edge (from to : TaskState) : Prop :=
  transition_allowed from to = true.

(** The ways one call may leave a task that was stored before it: as it
    was, with one more message ([create_task] on its id), with a new
    status along an allowed transition ([update_status]), or with one
    more artifact ([add_artifact]). *)
Inductive task_effect (task : Task) : Task → Prop :=
  | effect_none : task_effect task task
  | effect_message m : task_effect task (history_append m task)
  | effect_status state message now :
      transition_allowed (status_state task) state = true →
      task_effect task (updated_task state message now task)
  | effect_artifact a : task_effect task (artifacts_append a task).

(** A script on the task ["t1"] that goes through [INPUT_REQUIRED]. *)
Definition script_roundtrip : list Call :=
  [ UpdateStatus "t1" WORKING None 101;
    UpdateStatus "t1" INPUT_REQUIRED (Some done_msg) 102;
    CreateTask hello (Some "t1") None "uuid-1" 103;
    UpdateStatus "t1" SUBMITTED None 104;
    UpdateStatus "t1" WORKING None 105;
    NewArtifact report;
    AddArtifact "t1" 0%nat ].

(** ** The registry of queues *)

(** Well-formedness of [_subscribers]: it lists allocated queues only, no
    queue twice, and no queue under two task ids. *)
Record registry_wf (s : State) : Prop := mkRegistryWf {
  wf_alloc :
    ∀ task_id qs q,
      subscribers s !! task_id = Some qs → q ∈ qs →
      (q < length (queues s))%nat;
  wf_nodup :
    ∀ task_id qs, subscribers s !! task_id = Some qs → NoDup qs;
  wf_disjoint :
    ∀ id1 id2 qs1 qs2 q,
      subscribers s !! id1 = Some qs1 →
      subscribers s !! id2 = Some qs2 →
      q ∈ qs1 → q ∈ qs2 → id1 = id2
}.

(** The four things the code does to [_subscribers] and to the heap of
    queues: nothing to the lists, a new empty list ([create_task]), a new
    queue at the end of a list ([subscribe]), a queue removed from a list
    (the [finally] block of [subscribe]). *)
Inductive registry_step (s s' : State) : Prop :=
  | registry_same :
      subscribers s' = subscribers s →
      (length (queues s) ≤ length (queues s'))%nat →
      registry_step s s'
  | registry_reset task_id :
      subscribers s' = <[task_id := []]> (subscribers s) →
      (length (queues s) ≤ length (queues s'))%nat →
      registry_step s s'
  | registry_register task_id qs :
      subscribers s !! task_id = Some qs →
      subscribers s' = <[task_id := qs ++ [length (queues s)]]> (subscribers s) →
      length (queues s') = S (length (queues s)) →
      registry_step s s'
  | registry_unregister task_id queue qs qs' :
      subscribers s !! task_id = Some qs →
      list_remove queue qs = Some qs' →
      subscribers s' = <[task_id := qs']> (subscribers s) →
      (length (queues s) ≤ length (queues s'))%nat →
      registry_step s s'.

(** Two subscribers of ["t1"] and one of ["t2"], all of them suspended
    after their first snapshot. *)
Definition script_subscribers : list Call :=
  [ CreateTask hello (Some "t1") None "uuid-0" 100;
    CreateTask hello (Some "t2") None "uuid-1" 100;
    Subscribe "t1"; Subscribe "t2"; Subscribe "t1";
    Anext 0%nat; Anext 1%nat; Anext 2%nat ].

Definition sys_subscribers : System := run script_subscribers init_system.

(** ** [list_tasks] and the order of [_tasks]

    A Python [dict] keeps its keys in insertion order, which [gmap] does
    not record.  The order is recovered from the calls: only
    [self._tasks[task_id] = task] in [create_task] adds a key, at the
    end, and no key is ever removed. *)

Definition order_after (c : Call) (sys : System) (order : list string)
    : list string :=
  match c with
  | CreateTask _ task_id _ uuid _ =>
      if decide (is_Some (tasks (mgr sys) !! default uuid task_id))
      then order
      else order ++ [default uuid task_id]
  | _ => order
  end.

Fixpoint keys_in_order (calls : list Call) (sys : System)
    (order : list string) : list string :=
  match calls with
  | [] => order
  | c :: calls => keys_in_order calls (call c sys).2 (order_after c sys order)
  end.

(** [order] lists the keys of [_tasks], each once. *)
Definition ordered_keys (order : list string) (s : State) : Prop :=
  NoDup order ∧ ∀ k, k ∈ order ↔ is_Some (tasks s !! k).

(** [list(self._tasks.values())] *)
Definition tasks_values (order : list string) (s : State) : list Task :=
  omap (λ k, tasks s !! k) order.

(** The Python slices [l[:stop]] and [l[start:]]: a negative bound counts
    from the end, and bounds outside the list are clipped. *)
Definition slice_to {A} (stop : Z) (l : list A) : list A :=
  if (0 <=? stop)%Z then take (Z.to_nat stop) l
  else take (length l - Z.to_nat (- stop)) l.

Definition slice_from {A} (start : Z) (l : list A) : list A :=
  if (0 <=? start)%Z then drop (Z.to_nat start) l
  else drop (length l - Z.to_nat (- start)) l.

(** [list_tasks]: the test [if state:] succeeds for every member of
    [TaskState], whose values are non-empty strings, so it is the test
    [state is not None]. *)
Definition list_tasks (order : list string) (state : option TaskState)
    (limit : Z) (s : State) : list Task :=
  let tasks := tasks_values order s in
  let tasks :=
    match state with
    | Some state => filter (λ t, status_state t = state) tasks
    | None => tasks
    end in
  slice_to limit tasks.

(** A history of three messages. *)
Definition sys_history : System :=
  run [ CreateTask hello (Some "t1") None "uuid-0" 100;
        UpdateStatus "t1" WORKING (Some done_msg) 101;
        CreateTask hello (Some "t1") None "uuid-1" 102 ] init_system.

Definition task_history : Task :=
  mkTask "t1" (mkTaskStatus WORKING (Some done_msg) 101) []
    [hello; done_msg; hello] ∅.

(** Three tasks, one of them [WORKING]. *)
Definition script_three_tasks : list Call :=
  [ CreateTask hello (Some "b") None "uuid-0" 100;
    CreateTask hello (Some "a") None "uuid-1" 101;
    CreateTask done_msg (Some "b") None "uuid-2" 102;
    CreateTask hello None None "c" 103;
    UpdateStatus "a" WORKING None 104 ].

(** ** The JSON-RPC handlers ([sae.api.jsonrpc])

    What lies outside the repository's own logic is an input of the
    model: the outcome of the Pydantic validation of [params], the
    rendering of enum members and keys in exception texts, the outcome of
    the awaited [parse_document] and [run_contract_review].  Timestamps
    stay [datetime] values ([Z]) in the results instead of their
    [isoformat()] text, and a part stands for its [model_dump()]. *)

(** [state.value] *)
Definition TaskState_value (st : TaskState) : string :=
  match st with
  | SUBMITTED => "submitted"
  | WORKING => "working"
  | INPUT_REQUIRED => "input-required"
  | COMPLETED => "completed"
  | FAILED => "failed"
  | CANCELED => "canceled"
  end.

Record TaskSendParams := mkTaskSendParams {
  send_id : string;
  send_message : Message;
  send_metadata : Dict
}.

Record TaskGetParams := mkTaskGetParams {
  get_id : string;
  history_length : option Z
}.

Record TaskCancelParams := mkTaskCancelParams {
  cancel_id : string
}.

(** The dictionaries the handlers return. *)
Record ArtifactView := mkArtifactView {
  av_name : string;
  av_description : option string;
  av_parts : list Part;
  av_index : Z
}.

Record MessageView := mkMessageView {
  mv_role : Role;
  mv_parts : list Part
}.

Record TaskView := mkTaskView {
  tv_id : string;
  tv_state : string;
  tv_timestamp : Z;
  tv_artifacts : option (list ArtifactView);
  tv_history : option (list MessageView)
}.

Definition artifact_view (a : Artifact) : ArtifactView :=
  mkArtifactView (name a) (description a) (art_parts a) (index a).

Definition message_view (m : Message) : MessageView :=
  mkMessageView (role m) (parts m).

(** The [id] and [status] entries shared by the three results. *)
Definition status_view (task : Task) : TaskView :=
  mkTaskView (id task) (TaskState_value (state (status task)))
    (timestamp (status task)) None None.

(** The exceptions a handler lets escape: those of the manager, and the
    [ValueError] it raises with the text of a [ValidationError]. *)
Inductive Exn :=
  | ManagerExn (e : Error)
  | InvalidParams (detail : string)
  | ForeignExn (text : string).

(** The outcome of the validation of [params] by a parameter model: the
    text of the [ValidationError], or the validated parameters. *)
Definition validated (P : Type) : Type := (string + P)%type.

(** [handle_tasks_send]: [uuid4()] is not called, the id being given;
    the second component of the result is the id handed to
    [background_tasks.add_task(process_task, task.id)]. *)
Definition handle_tasks_send (params : validated TaskSendParams) (now : Z)
    (s : State) : (Exn + TaskView * string) * State :=
  match params with
  | inl detail => (inl (InvalidParams ("Invalid parameters: " +:+ detail)), s)
  | inr send_params =>
      match create_task (send_message send_params)
              (Some (send_id send_params))
              (Some (send_metadata send_params)) "" now s with
      | (Raise e, s') => (inl (ManagerExn e), s')
      | (Ok task, s') => (inr (status_view task, id task), s')
      end
  end.

(** [handle_tasks_get]: [if get_params.history_length:] fails for [None]
    and for [0]; the artifacts are read through their references. *)
Definition handle_tasks_get (params : validated TaskGetParams) (s : State)
    : (Exn + TaskView) * State :=
  match params with
  | inl detail => (inl (InvalidParams ("Invalid parameters: " +:+ detail)), s)
  | inr get_params =>
      match get_task (get_id get_params) s with
      | (Raise e, s') => (inl (ManagerExn e), s')
      | (Ok task, s') =>
          let artifacts :=
            omap (λ a, artifact_view <$> objects s' !! a) (artifacts task) in
          let history :=
            match history_length get_params with
            | None => None
            | Some n =>
                if (n =? 0)%Z then None
                else Some (message_view <$> slice_from (- n) (history task))
            end in
          (inr (mkTaskView (id task) (TaskState_value (state (status task)))
                  (timestamp (status task)) (Some artifacts) history), s')
      end
  end.

Definition handle_tasks_cancel (params : validated TaskCancelParams)
    (now : Z) (s : State) : (Exn + TaskView) * State :=
  match params with
  | inl detail => (inl (InvalidParams ("Invalid parameters: " +:+ detail)), s)
  | inr cancel_params =>
      match cancel_task (cancel_id cancel_params) now s with
      | (Raise e, s') => (inl (ManagerExn e), s')
      | (Ok task, s') => (inr (status_view task), s')
      end
  end.

(** JSON-RPC error codes. *)
Definition PARSE_ERROR : Z := -32700.
Definition INVALID_REQUEST : Z := -32600.
Definition METHOD_NOT_FOUND : Z := -32601.
Definition INVALID_PARAMS : Z := -32602.
Definition INTERNAL_ERROR : Z := -32603.
Definition TASK_NOT_FOUND : Z := -32001.
Definition INVALID_STATE : Z := -32002.

Inductive RpcId :=
  | IdStr (s : string)
  | IdInt (n : Z).

Record JsonRpcError := mkJsonRpcError {
  code : Z;
  error_message : string
}.

(** [JsonRpcResponse(...).model_dump(exclude_none=True)]: a field that is
    [None] stands for a key that is absent. *)
Record JsonRpcResponse := mkJsonRpcResponse {
  rsp_id : RpcId;
  rsp_result : option TaskView;
  rsp_error : option JsonRpcError
}.

Definition make_error_response (request_id : RpcId) (code : Z)
    (message : string) : JsonRpcResponse :=
  mkJsonRpcResponse request_id None (Some (mkJsonRpcError code message)).

Definition make_success_response (request_id : RpcId) (result : TaskView)
    : JsonRpcResponse :=
  mkJsonRpcResponse request_id (Some result) None.

(** A validated [JsonRpcRequest]; [params] is given by what each of the
    three parameter models makes of it. *)
Record JsonRpcRequest := mkJsonRpcRequest {
  rpc_method : string;
  rpc_id : RpcId;
  as_send : validated TaskSendParams;
  as_get : validated TaskGetParams;
  as_cancel : validated TaskCancelParams
}.

(** The body of the request: not JSON; a dictionary that is not a
    [JsonRpcRequest], with its [id] entry or the string [null] (an entry
    that is a string or an integer) and the text of the error; or a
    request. *)
Inductive Body :=
  | NotJson
  | NotRequest (id_or_null : RpcId) (detail : string)
  | Request (rpc_request : JsonRpcRequest).

Section Callers.

(** [f"{state}"] for a member of [TaskState], which depends on the
    version of Python, and [repr] of a key, as [str(KeyError(key))]
    prints it. *)
Variable format_state : TaskState → string.
Variable repr_str : string → string.

(** [str(e)] for the exceptions of the manager. *)
Definition error_str (e : Error) : string :=
  match e with
  | TaskNotFoundError task_id => "Task " +:+ task_id +:+ " not found"
  | InvalidStateTransitionError current_state target =>
      "Cannot transition from " +:+ format_state current_state
      +:+ " to " +:+ format_state target
  | KeyError key => repr_str key
  | ValueError => "list.remove(x): x not in list"
  end.

(** The [except] clauses of [handle_jsonrpc], in their order. *)
Definition exn_response (request_id : RpcId) (e : Exn) : JsonRpcResponse :=
  match e with
  | ManagerExn (TaskNotFoundError task_id) =>
      make_error_response request_id TASK_NOT_FOUND
        (error_str (TaskNotFoundError task_id))
  | ManagerExn (InvalidStateTransitionError a b) =>
      make_error_response request_id INVALID_STATE
        (error_str (InvalidStateTransitionError a b))
  | ManagerExn ValueError =>
      make_error_response request_id INVALID_PARAMS (error_str ValueError)
  | InvalidParams text =>
      make_error_response request_id INVALID_PARAMS text
  | ManagerExn (KeyError key) =>
      make_error_response request_id INTERNAL_ERROR
        ("Internal error: " +:+ error_str (KeyError key))
  | ForeignExn text =>
      make_error_response request_id INTERNAL_ERROR
        ("Internal error: " +:+ text)
  end.

(** [handle_jsonrpc], after the rate limiter and the API key check.
    The second component is the list of ids for which [process_task]
    was scheduled. *)
Definition handle_jsonrpc (body : Body) (now : Z) (s : State)
    : (JsonRpcResponse * list string) * State :=
  match body with
  | NotJson =>
      (make_error_response (IdStr "null") PARSE_ERROR
         "Parse error: Invalid JSON", [], s)
  | NotRequest id_or_null detail =>
      (make_error_response id_or_null INVALID_REQUEST
         ("Invalid Request: " +:+ detail), [], s)
  | Request rpc_request =>
      let request_id := rpc_id rpc_request in
      if decide (rpc_method rpc_request = "tasks/send") then
        match handle_tasks_send (as_send rpc_request) now s with
        | (inr (result, scheduled), s') =>
            (make_success_response request_id result, [scheduled], s')
        | (inl e, s') => (exn_response request_id e, [], s')
        end
      else if decide (rpc_method rpc_request = "tasks/get") then
        match handle_tasks_get (as_get rpc_request) s with
        | (inr result, s') =>
            (make_success_response request_id result, [], s')
        | (inl e, s') => (exn_response request_id e, [], s')
        end
      else if decide (rpc_method rpc_request = "tasks/cancel") then
        match handle_tasks_cancel (as_cancel rpc_request) now s with
        | (inr result, s') =>
            (make_success_response request_id result, [], s')
        | (inl e, s') => (exn_response request_id e, [], s')
        end
      else
        (make_error_response request_id METHOD_NOT_FOUND
           ("Method not found: " +:+ rpc_method rpc_request), [], s)
  end.

End Callers.


Definition request_send_t1 : JsonRpcRequest :=
  mkJsonRpcRequest "tasks/send" (IdStr "req-1")
    (inr (mkTaskSendParams "t1" done_msg {[ "k" := AInt 1 ]}))
    (inr (mkTaskGetParams "t1" None)) (inr (mkTaskCancelParams "t1")).

(** ** [process_task]

    [process_task] is a coroutine.  It is suspended where it awaits
    [parse_document] and [run_contract_review], the two callees that
    leave the manager; what they deliver is an input of the step that
    resumes it, and between two steps any other call may run.  The local
    variable [task] denotes the [Task] object stored under [task_id],
    whose history is read as it is when the loop reaches it. *)

Record ContractInput := mkContractInput {
  ci_task_id : string;
  contract_text : string;
  ci_metadata : Dict
}.

(** What [await parse_document(part.file)] delivers: the text, an
    [UnsupportedFileTypeError], another [DocumentParserError], or any
    other exception, each with its [str(e)]. *)
Inductive ParseOutcome :=
  | Parsed (file_text : string)
  | UnsupportedFile (text : string)
  | ParserFailed (text : string)
  | ParseRaised (text : string).

(** What [await run_contract_review(input_data)] delivers: an exception,
    or a [ContractOutput] with its [success] and [error] fields, the
    summary of its analysis and the text of the report built from it. *)
Inductive ReviewOutcome :=
  | ReviewRaised (text : string)
  | Reviewed (success : bool) (error : option string)
      (summary report : string).

Inductive Proc :=
  | ProcCreated (task_id : string)
  | ProcParsing (task_id : string) (i j : nat) (contract_parts : list string)
    (** awaiting [parse_document] for part [j] of message [i] *)
  | ProcReviewing (task_id : string) (input_data : ContractInput)
    (** awaiting [run_contract_review] *)
  | ProcReturned
  | ProcRaised (e : Exn).

Inductive ProcInput :=
  | Start
  | GotParse (o : ParseOutcome)
  | GotReview (o : ReviewOutcome).

(** Where the two nested [for] loops stop: at a file part, or at the end
    of the history. *)
Inductive Scan :=
  | ScanFile (i j : nat) (file : Dict) (contract_parts : list string)
  | ScanDone (contract_parts : list string).

(** [for part in msg.parts], from part [j] on: a [TextPart] has a [text]
    attribute, a [FilePart] a [file] attribute, a [DataPart] neither. *)
Fixpoint scan_parts (ps : list Part) (j : nat) (contract_parts : list string)
    : list string + nat * Dict * list string :=
  match ps with
  | [] => inl contract_parts
  | TextPart text :: ps => scan_parts ps (S j) (contract_parts ++ [text])
  | FilePart file :: ps => inr (j, file, contract_parts)
  | DataPart _ :: ps => scan_parts ps (S j) contract_parts
  end.

(** [for msg in task.history], from message [i] on. *)
Fixpoint scan_history (msgs : list Message) (i : nat)
    (contract_parts : list string) : Scan :=
  match msgs with
  | [] => ScanDone contract_parts
  | msg :: msgs =>
      match role msg with
      | user =>
          match scan_parts (parts msg) 0 contract_parts with
          | inl contract_parts => scan_history msgs (S i) contract_parts
          | inr (j, file, contract_parts) => ScanFile i j file contract_parts
          end
      | agent => scan_history msgs (S i) contract_parts
      end
  end.

(** The loops resumed after part [j] of message [i]. *)
Definition scan_resume (history : list Message) (i j : nat)
    (contract_parts : list string) : Scan :=
  match history !! i with
  | None => ScanDone contract_parts
  | Some msg =>
      match scan_parts (drop (S j) (parts msg)) (S j) contract_parts with
      | inl contract_parts =>
          scan_history (drop (S i) history) (S i) contract_parts
      | inr (j', file, contract_parts) => ScanFile i j' file contract_parts
      end
  end.

(** The separator of ["\n\n".join(contract_parts)]. *)
Definition two_newlines : string :=
  String (Ascii.ascii_of_nat 10) (String (Ascii.ascii_of_nat 10) EmptyString).

(** [error or default] on an optional string. *)
Definition or_default (error : option string) (default : string) : string :=
  match error with
  | None | Some EmptyString => default
  | Some text => text
  end.

(** The artifact built from a successful review. *)
Definition analysis_artifact (report : string) : Artifact :=
  mkArtifact "contract_analysis"
    (Some "Complete contract clause analysis with risks and recommendations")
    [TextPart report] 0 ∅.

Section Processing.

Variable format_state : TaskState → string.
Variable repr_str : string → string.

(** [contract_text.strip()] *)
Variable str_strip : string → string.

(** The clause [except Exception as e]: [fail_task(task_id, str(e))],
    whose own exception leaves the coroutine. *)
Definition on_error (task_id : string) (now : Z) (text : string)
    (s : State) : Proc * State :=
  match fail_task task_id text now s with
  | (Ok _, s') => (ProcReturned, s')
  | (Raise e, s') => (ProcRaised (ManagerExn e), s')
  end.

(** [await task_manager.fail_task(task_id, reason); return] inside the
    [try]. *)
Definition fail_and_return (task_id : string) (now : Z) (reason : string)
    (s : State) : Proc * State :=
  match fail_task task_id reason now s with
  | (Ok _, s') => (ProcReturned, s')
  | (Raise e, s') =>
      on_error task_id now (error_str format_state repr_str e) s'
  end.

(** From the end of a scan to the next suspension or to the end. *)
Definition after_scan (task_id : string) (now : Z) (scan : Scan)
    (s : State) : Proc * State :=
  match scan with
  | ScanFile i j file contract_parts =>
      (ProcParsing task_id i j contract_parts, s)
  | ScanDone contract_parts =>
      let text := String.concat two_newlines contract_parts in
      if decide (str_strip text = "")
      then fail_and_return task_id now "No contract text provided" s
      else
        match tasks s !! task_id with
        | Some task =>
            (ProcReviewing task_id
               (mkContractInput task_id (str_strip text) (metadata task)),
             s)
        | None => (ProcRaised (ManagerExn (KeyError task_id)), s)
        end
  end.

(** One step of [process_task]: from where it is suspended to where it
    is suspended next, or to its end.  [now] and [now'] are the first
    and the second reading of [datetime.utcnow()] in the step.  A step
    with an input that the suspended coroutine does not await has no
    counterpart and does nothing; so has the lookup of a task object
    that is not stored, as no task is ever removed. *)
Definition process_task_step (now now' : Z) (p : Proc) (input : ProcInput)
    (s : State) : Proc * State :=
  match p, input with
  | ProcCreated task_id, Start =>
      match update_status task_id WORKING None now s with
      | (Raise e, s1) =>
          on_error task_id now (error_str format_state repr_str e) s1
      | (Ok _, s1) =>
          match get_task task_id s1 with
          | (Raise e, s2) =>
              on_error task_id now' (error_str format_state repr_str e) s2
          | (Ok task, s2) =>
              after_scan task_id now' (scan_history (history task) 0 []) s2
          end
      end
  | ProcParsing task_id i j contract_parts, GotParse o =>
      match tasks s !! task_id with
      | None => (ProcRaised (ManagerExn (KeyError task_id)), s)
      | Some task =>
          match o with
          | Parsed file_text =>
              after_scan task_id now
                (scan_resume (history task) i j
                   (contract_parts ++ [file_text])) s
          | UnsupportedFile _ =>
              after_scan task_id now
                (scan_resume (history task) i j contract_parts) s
          | ParserFailed text =>
              fail_and_return task_id now
                ("Failed to parse uploaded file: " +:+ text) s
          | ParseRaised text => on_error task_id now text s
          end
      end
  | ProcReviewing task_id input_data, GotReview o =>
      match o with
      | ReviewRaised text => on_error task_id now text s
      | Reviewed success error summary report =>
          if negb success
          then fail_and_return task_id now
                 (or_default error "Analysis failed") s
          else
            let artifact := length (objects s) in
            let s1 :=
              set_objects (objects s ++ [analysis_artifact report]) s in
            match add_artifact task_id artifact s1 with
            | (Raise e, s2) =>
                on_error task_id now (error_str format_state repr_str e) s2
            | (Ok _, s2) =>
                match complete_task task_id
                        (Some (mkMessage agent [TextPart summary] ∅))
                        now s2 with
                | (Ok _, s3) => (ProcReturned, s3)
                | (Raise e, s3) =>
                    on_error task_id now
                      (error_str format_state repr_str e) s3
                end
            end
      end
  | _, _ => (p, s)
  end.

End Processing.



(** The texts the loops collect when no file part is met. *)
Definition part_texts (ps : list Part) : list string :=
  omap (λ part, match part with TextPart text => Some text | _ => None end) ps.

Definition user_texts (history : list Message) : list string :=
  flat_map (λ msg, match role msg with
                   | user => part_texts (parts msg)
                   | agent => []
                   end) history.

Definition has_file (ps : list Part) : bool :=
  existsb (λ part, match part with FilePart _ => true | _ => false end) ps.

Definition no_user_file (history : list Message) : bool :=
  forallb (λ msg, match role msg with
                  | user => negb (has_file (parts msg))
                  | agent => true
                  end) history.


(** A task whose only message carries a data part, hence no text. *)
Definition data_msg : Message := mkMessage user [DataPart ∅] ∅.

Definition sys_no_text : System :=
  run [CreateTask data_msg (Some "t1") None "uuid-0" 100] init_system.

Definition task_no_text : Task :=
  mkTask "t1" (mkTaskStatus SUBMITTED None 100) [] [data_msg] ∅.

(** ** The event stream ([sae.api.streaming])

    The [data] of an event is kept as the dictionary that
    [format_task_event] builds, before [json.dumps]. *)

Record EventView := mkEventView {
  ev_id : string;
  ev_state : string;
  ev_timestamp : Z;
  ev_message : option MessageView;
  ev_artifacts : option (list ArtifactView)
}.

Inductive Event :=
  | TaskUpdate (data : EventView)
  | ErrorEvent (task_id : string).

(** [format_task_event]: the tests [if result.status.message:] and
    [if result.artifacts:] fail for [None] and for the empty list; the
    attributes of the artifacts are read when the event is formatted. *)
Definition format_task_event (result : TaskResult) (s : State) : Event :=
  TaskUpdate
    (mkEventView (res_id result)
       (TaskState_value (state (res_status result)))
       (timestamp (res_status result))
       (message_view <$> message (res_status result))
       (match res_artifacts result with
        | [] => None
        | artifacts =>
            Some (omap (λ a, artifact_view <$> objects s !! a) artifacts)
        end)).

(** [task_event_generator], by the point where it is suspended: not
    started, inside the [async for] with the generator of [subscribe],
    at the [yield] of the error event, or finished. *)
Inductive EventGen :=
  | EvCreated (task_id : string)
  | EvStreaming (task_id : string) (inner : Gen)
  | EvErrorYielded
  | EvClosed.

Inductive EventOutcome :=
  | EvYield (event : Event)
  | EvPending
  | EvStop.

(** One [__anext__] of the inner generator inside
    [try: async for ... except TaskNotFoundError]. *)
Definition event_loop (task_id : string) (inner : Gen)
    : M (EventOutcome * EventGen) := λ s,
  match anext inner s with
  | (Ok (Yield result, inner'), s') =>
      (Ok (EvYield (format_task_event result s'), EvStreaming task_id inner'),
       s')
  | (Ok (Pending, inner'), s') => (Ok (EvPending, EvStreaming task_id inner'), s')
  | (Ok (StopAsyncIteration, _), s') => (Ok (EvStop, EvClosed), s')
  | (Raise (TaskNotFoundError _), s') =>
      (Ok (EvYield (ErrorEvent task_id), EvErrorYielded), s')
  | (Raise e, s') => (Raise e, s')
  end.

Definition event_anext (eg : EventGen) : M (EventOutcome * EventGen) :=
  match eg with
  | EvCreated task_id => event_loop task_id (GenCreated task_id)
  | EvStreaming task_id inner => event_loop task_id inner
  | EvErrorYielded | EvClosed => mret (EvStop, EvClosed)
  end.

(** ** The application as a client of the manager *)


(** A subscriber of ["t1"] with three snapshots waiting in its queue. *)
Definition script_queued : list Call :=
  [ CreateTask hello (Some "t1") None "uuid-0" 100;
    Subscribe "t1"; Anext 0%nat;
    UpdateStatus "t1" WORKING None 101;
    UpdateStatus "t1" FAILED None 102;
    NewArtifact report;
    AddArtifact "t1" 0%nat ].

Definition sys_queued : System := run script_queued init_system.

Definition snapshot_working : TaskResult :=
  mkTaskResult "t1" (mkTaskStatus WORKING None 101) [] ∅.

Definition snapshot_failed : TaskResult :=
  mkTaskResult "t1" (mkTaskStatus FAILED None 102) [] ∅.

Definition snapshot_artifact : TaskResult :=
  mkTaskResult "t1" (mkTaskStatus FAILED None 102) [0%nat] ∅.

(** * Properties *)

(** ** The transition table *)

Lemma transition_allowed_decide from to :
  transition_allowed from to = bool_decide ((from, to) ∈ transition_table).
Proof. by destruct from, to; vm_compute. Qed.

Lemma transition_allowed_table from to :
  transition_allowed from to = true ↔ (from, to) ∈ transition_table.
Proof. rewrite transition_allowed_decide. apply bool_decide_eq_true. Qed.

Lemma transition_rejected_table from to :
  transition_allowed from to = false ↔ (from, to) ∉ transition_table.
Proof. rewrite transition_allowed_decide. apply bool_decide_eq_false. Qed.

Lemma transition_allowed_terminal from to :
  is_terminal from = true → transition_allowed from to = false.
Proof. destruct from, to; vm_compute; congruence. Qed.

(** ** Equations of the operations *)

Ltac unfold_M :=
  unfold mbind, mret, M_bind, M_ret, raise, gets, modify,
    tasks_getitem, subscribers_getitem, tasks_store in *;
  simpl in *.

Lemma broadcast_frame result qs s :
  objects (broadcast result qs s) = objects s
  ∧ tasks (broadcast result qs s) = tasks s
  ∧ subscribers (broadcast result qs s) = subscribers s
  ∧ length (queues (broadcast result qs s)) = length (queues s).
Proof.
  unfold broadcast. revert s.
  induction qs as [|q qs IH]; intros s; simpl; [done|].
  destruct (IH (queue_put result s q)) as (-> & -> & -> & ->).
  simpl. by rewrite length_alter.
Qed.

Lemma notify_stored task_id task s :
  tasks s !! task_id = Some task →
  _notify_subscribers task_id s =
    (Ok tt, broadcast (_task_to_result task)
              (default [] (subscribers s !! task_id)) s).
Proof.
  intros Ht. unfold _notify_subscribers.
  destruct (subscribers s !! task_id) as [qs|]; simpl; [|done].
  unfold_M. by rewrite Ht.
Qed.

Lemma update_status_missing task_id state message now s :
  tasks s !! task_id = None →
  update_status task_id state message now s =
    (Raise (TaskNotFoundError task_id), s).
Proof. intros H. unfold update_status. by rewrite H. Qed.

Lemma update_status_rejected task_id task state message now s :
  tasks s !! task_id = Some task →
  transition_allowed (status_state task) state = false →
  update_status task_id state message now s =
    (Raise (InvalidStateTransitionError (status_state task) state), s).
Proof.
  intros Ht Hv. unfold update_status. rewrite Ht. unfold_M.
  by rewrite Ht, Hv.
Qed.

Lemma update_status_accepted task_id task state message now s :
  tasks s !! task_id = Some task →
  transition_allowed (status_state task) state = true →
  update_status task_id state message now s =
    (Ok (updated_task state message now task),
     broadcast (_task_to_result (updated_task state message now task))
       (default [] (subscribers s !! task_id))
       (set_tasks (<[task_id := updated_task state message now task]>
                     (tasks s)) s)).
Proof.
  intros Ht Hv. unfold update_status. rewrite Ht. unfold_M.
  rewrite Ht, Hv. simpl.
  fold (updated_task state message now task).
  set (task' := updated_task state message now task).
  rewrite (notify_stored task_id task'); [done|].
  simpl. by rewrite lookup_insert_eq.
Qed.

Lemma add_artifact_missing task_id artifact s :
  tasks s !! task_id = None →
  add_artifact task_id artifact s = (Raise (TaskNotFoundError task_id), s).
Proof. intros H. unfold add_artifact. by rewrite H. Qed.

Lemma add_artifact_found task_id task artifact s :
  tasks s !! task_id = Some task →
  add_artifact task_id artifact s =
    (Ok (artifacts_append artifact task),
     broadcast (_task_to_result (artifacts_append artifact task))
       (default [] (subscribers s !! task_id))
       (set_tasks (<[task_id := artifacts_append artifact task]> (tasks s))
          (set_objects
             (alter (set_index (Z.of_nat (length (artifacts task))))
                    artifact (objects s)) s))).
Proof.
  intros Ht. unfold add_artifact. rewrite Ht. unfold_M. rewrite Ht. simpl.
  set (task' := artifacts_append artifact task).
  rewrite (notify_stored task_id task'); [done|].
  simpl. by rewrite lookup_insert_eq.
Qed.

Lemma create_task_existing message task_id task metadata uuid now s :
  tasks s !! default uuid task_id = Some task →
  create_task message task_id metadata uuid now s =
    (Ok (history_append message task),
     set_tasks (<[default uuid task_id := history_append message task]>
                  (tasks s)) s).
Proof. intros Ht. unfold create_task. unfold_M. by rewrite Ht. Qed.

Lemma create_task_fresh message task_id metadata uuid now s :
  tasks s !! default uuid task_id = None →
  let task :=
    mkTask (default uuid task_id) (mkTaskStatus SUBMITTED None now) []
      [message] (default ∅ metadata) in
  create_task message task_id metadata uuid now s =
    (Ok task,
     mkState (objects s) (queues s)
       (<[default uuid task_id := task]> (tasks s))
       (<[default uuid task_id := []]> (subscribers s))).
Proof. intros Ht. unfold create_task. unfold_M. by rewrite Ht. Qed.

(** ** Valid and invalid transitions *)

(** C1: for every task in state [from] and every pair [(from, to)] of the
    transition table, [update_status] succeeds, and the task it returns,
    which is the task stored under the id, has [status.state = to]. *)
Theorem update_status_valid_transition
    (s : State) (task_id : string) (task : Task) (from to : TaskState)
    (message : option Message) (now : Z) :
  tasks s !! task_id = Some task →
  status_state task = from →
  (from, to) ∈ transition_table →
  ∃ task' s',
    update_status task_id to message now s = (Ok task', s')
    ∧ state (status task') = to
    ∧ tasks s' !! task_id = Some task'.
Proof.
  intros Ht <- Htable.
  apply transition_allowed_table in Htable.
  eexists _, _. split; [by apply update_status_accepted|].
  split.
  - unfold updated_task. by destruct message.
  - destruct (broadcast_frame
      (_task_to_result (updated_task to message now task))
      (default [] (subscribers s !! task_id))
      (set_tasks (<[task_id := updated_task to message now task]> (tasks s)) s))
      as (_ & -> & _).
    simpl. apply lookup_insert_eq.
Qed.

Lemma update_status_valid_transition_witness :
  ∃ task' s',
    update_status "t1" WORKING (Some done_msg) 101 (mgr sys_t1) = (Ok task', s')
    ∧ state (status task') = WORKING
    ∧ tasks s' !! "t1" = Some task'.
Proof.
  apply (update_status_valid_transition (mgr sys_t1) "t1" task_t1
           SUBMITTED WORKING (Some done_msg) 101).
  - reflexivity.
  - reflexivity.
  - apply transition_allowed_table. reflexivity.
Defined.

(** C2: for an existing task and a pair [(from, to)] that is not in the
    transition table, [update_status] raises [InvalidStateTransitionError]
    and leaves the whole program state as it was: the task (status,
    history, artifacts, metadata) is unchanged and no queue received a
    snapshot. *)
Theorem update_status_invalid_transition
    (s : State) (task_id : string) (task : Task) (to : TaskState)
    (message : option Message) (now : Z) :
  tasks s !! task_id = Some task →
  (status_state task, to) ∉ transition_table →
  ∃ s',
    update_status task_id to message now s =
      (Raise (InvalidStateTransitionError (status_state task) to), s')
    ∧ s' = s
    ∧ tasks s' !! task_id = Some task
    ∧ queues s' = queues s.
Proof.
  intros Ht Htable. apply transition_rejected_table in Htable.
  exists s. by rewrite (update_status_rejected _ task).
Qed.

Lemma update_status_invalid_transition_witness :
  ∃ s',
    update_status "t1" COMPLETED (Some done_msg) 101 (mgr sys_t1) =
      (Raise (InvalidStateTransitionError SUBMITTED COMPLETED), s')
    ∧ s' = mgr sys_t1
    ∧ tasks s' !! "t1" = Some task_t1
    ∧ queues s' = queues (mgr sys_t1).
Proof.
  apply (update_status_invalid_transition (mgr sys_t1) "t1" task_t1
           COMPLETED (Some done_msg) 101).
  - reflexivity.
  - apply transition_rejected_table. reflexivity.
Defined.

(** ** Creating a task twice *)

(** C3: [create_task] called twice with the same id stores one task under
    that id: the second call adds no key and touches no other task, it
    appends its message after the first one, and the id, status,
    artifacts and metadata are those left by the first call; when the id
    was new, these are the values of a fresh task. *)
Theorem create_task_twice
    (s : State) (task_id : string) (m1 m2 : Message)
    (metadata1 metadata2 : option Dict) (uuid1 uuid2 : string)
    (now1 now2 : Z) :
  ∃ t1 s1 t2 s2,
    create_task m1 (Some task_id) metadata1 uuid1 now1 s = (Ok t1, s1)
    ∧ create_task m2 (Some task_id) metadata2 uuid2 now2 s1 = (Ok t2, s2)
    ∧ tasks s1 !! task_id = Some t1
    ∧ tasks s2 !! task_id = Some t2
    ∧ dom (tasks s2) = dom (tasks s1)
    ∧ (∀ other, other ≠ task_id → tasks s2 !! other = tasks s1 !! other)
    ∧ (∃ h, history t1 = h ++ [m1] ∧ history t2 = h ++ [m1; m2])
    ∧ id t2 = id t1
    ∧ status t2 = status t1
    ∧ artifacts t2 = artifacts t1
    ∧ metadata t2 = metadata t1
    ∧ (tasks s !! task_id = None →
         t1 = mkTask task_id (mkTaskStatus SUBMITTED None now1) [] [m1]
                (default ∅ metadata1)
         ∧ history t2 = [m1; m2]).
Proof.
  assert (∃ t1 s1,
    create_task m1 (Some task_id) metadata1 uuid1 now1 s = (Ok t1, s1)
    ∧ tasks s1 !! task_id = Some t1
    ∧ (∃ h, history t1 = h ++ [m1])
    ∧ (tasks s !! task_id = None →
         t1 = mkTask task_id (mkTaskStatus SUBMITTED None now1) [] [m1]
                (default ∅ metadata1))) as (t1 & s1 & E1 & L1 & (h & Hh) & F1).
  { destruct (tasks s !! task_id) as [t0|] eqn:Ht.
    - eexists _, _. split; [by apply (create_task_existing _ (Some task_id))|].
      simpl. rewrite lookup_insert_eq. split; [done|].
      split; [by exists (history t0)|done].
    - eexists _, _. split; [by apply (create_task_fresh _ (Some task_id))|].
      simpl. rewrite lookup_insert_eq. split; [done|].
      split; [by exists []|done]. }
  exists t1, s1, (history_append m2 t1),
    (set_tasks (<[task_id := history_append m2 t1]> (tasks s1)) s1).
  split; [done|].
  split; [by apply (create_task_existing _ (Some task_id))|].
  split; [done|]. simpl. split; [apply lookup_insert_eq|].
  split.
  { by apply dom_insert_lookup_L. }
  split; [intros other Hne; by rewrite lookup_insert_ne|].
  split.
  { exists h. split; [done|]. rewrite Hh. by rewrite <- app_assoc. }
  do 4 (split; [done|]).
  intros Hnone. specialize (F1 Hnone). split; [done|]. by subst t1.
Qed.

Lemma create_task_twice_witness :
  ∃ t1 t2,
    t1 = mkTask "t1" (mkTaskStatus SUBMITTED None 100) [] [hello] ∅
    ∧ history t2 = [hello; done_msg]
    ∧ id t2 = "t1"
    ∧ status t2 = mkTaskStatus SUBMITTED None 100
    ∧ artifacts t2 = []
    ∧ metadata t2 = ∅.
Proof.
  destruct (create_task_twice init "t1" hello done_msg None
              (Some {[ "k" := AInt 1 ]}) "uuid-0" "uuid-1" 100 200)
    as (t1 & s1 & t2 & s2 & _ & _ & _ & _ & _ & _ & _
        & Hid & Hst & Ha & Hm & Hfresh).
  destruct (Hfresh eq_refl) as [Ht1 Hh2].
  exists t1, t2. rewrite Hid, Hst, Ha, Hm, Ht1.
  repeat split. exact Hh2.
Defined.

(** ** What an operation may do to a stored task *)

Lemma evolves_refl task : evolves task task.
Proof. by repeat split. Qed.

Lemma evolves_trans t1 t2 t3 : evolves t1 t2 → evolves t2 t3 → evolves t1 t3.
Proof.
  intros (Hi & Hm & Hh & Ha & Hs) (Hi' & Hm' & Hh' & Ha' & Hs').
  split; [congruence|]. split; [congruence|].
  split; [by etrans|]. split; [by etrans|].
  intros Hterm. rewrite <- (Hs Hterm). apply Hs'.
  unfold status_state. by rewrite (Hs Hterm).
Qed.

Lemma still_stored_same task_id task s :
  tasks s !! task_id = Some task → still_stored task_id task s.
Proof. intros H. exists task. split; [done|apply evolves_refl]. Qed.

Lemma still_stored_trans task_id task task' s' :
  evolves task task' →
  still_stored task_id task' s' →
  still_stored task_id task s'.
Proof.
  intros He (t'' & Hl & He'). exists t''. split; [done|].
  by apply (evolves_trans _ task').
Qed.

Lemma evolves_history_append m task : evolves task (history_append m task).
Proof.
  repeat split; simpl; try done. by apply prefix_app_r.
Qed.

Lemma evolves_artifacts_append a task : evolves task (artifacts_append a task).
Proof.
  repeat split; simpl; try done. by apply prefix_app_r.
Qed.

Lemma evolves_updated_task state message now task :
  transition_allowed (status_state task) state = true →
  evolves task (updated_task state message now task).
Proof.
  intros Hv. unfold updated_task.
  destruct message; repeat split; simpl; try done;
    try (by apply prefix_app_r);
    intros Hterm; by rewrite (transition_allowed_terminal _ state Hterm) in Hv.
Qed.

Lemma create_task_frame message key metadata uuid now s task_id task :
  tasks s !! task_id = Some task →
  still_stored task_id task
    (create_task message key metadata uuid now s).2.
Proof.
  intros Ht.
  destruct (tasks s !! default uuid key) as [t0|] eqn:Hk.
  - rewrite (create_task_existing _ _ t0) by done. simpl.
    destruct (decide (default uuid key = task_id)) as [He|Hne].
    + rewrite He in *. exists (history_append message t0). simpl.
      rewrite lookup_insert_eq. split; [done|].
      assert (t0 = task) as -> by congruence.
      apply evolves_history_append.
    + exists task. simpl. rewrite lookup_insert_ne by done.
      split; [done|apply evolves_refl].
  - rewrite create_task_fresh by done. simpl.
    exists task. simpl. rewrite lookup_insert_ne by congruence.
    split; [done|apply evolves_refl].
Qed.

Lemma get_task_state task_id s : (get_task task_id s).2 = s.
Proof. unfold get_task. by destruct (tasks s !! task_id). Qed.

Lemma update_status_frame key state message now s task_id task :
  tasks s !! task_id = Some task →
  still_stored task_id task (update_status key state message now s).2.
Proof.
  intros Ht.
  destruct (tasks s !! key) as [t0|] eqn:Hk.
  - destruct (transition_allowed (status_state t0) state) eqn:Hv.
    + rewrite (update_status_accepted _ t0) by done. simpl.
      unfold still_stored.
      match goal with |- context [broadcast ?r ?q ?s0] =>
        destruct (broadcast_frame r q s0) as (_ & -> & _) end.
      simpl.
      destruct (decide (key = task_id)) as [->|Hne].
      * rewrite lookup_insert_eq. eexists. split; [done|].
        assert (t0 = task) as -> by congruence.
        by apply evolves_updated_task.
      * rewrite lookup_insert_ne by done.
        exists task. split; [done|apply evolves_refl].
    + rewrite (update_status_rejected _ t0) by done.
      by apply still_stored_same.
  - rewrite update_status_missing by done. by apply still_stored_same.
Qed.

Lemma add_artifact_frame key artifact s task_id task :
  tasks s !! task_id = Some task →
  still_stored task_id task (add_artifact key artifact s).2.
Proof.
  intros Ht.
  destruct (tasks s !! key) as [t0|] eqn:Hk.
  - rewrite (add_artifact_found _ t0) by done. simpl.
    unfold still_stored.
    match goal with |- context [broadcast ?r ?q ?s0] =>
      destruct (broadcast_frame r q s0) as (_ & -> & _) end.
    simpl.
    destruct (decide (key = task_id)) as [->|Hne].
    + rewrite lookup_insert_eq. eexists. split; [done|].
      assert (t0 = task) as -> by congruence.
      apply evolves_artifacts_append.
    + rewrite lookup_insert_ne by done.
      exists task. split; [done|apply evolves_refl].
  - rewrite add_artifact_missing by done. by apply still_stored_same.
Qed.

Lemma subscribe_finally_tasks task_id queue s :
  tasks (subscribe_finally task_id queue s).2 = tasks s
  ∧ objects (subscribe_finally task_id queue s).2 = objects s
  ∧ queues (subscribe_finally task_id queue s).2 = queues s.
Proof.
  unfold subscribe_finally.
  destruct (subscribers s !! task_id) as [qs|]; [|done].
  by destruct (list_remove queue qs).
Qed.

Lemma queue_get_frame queue s :
  tasks (queue_get queue s).2 = tasks s
  ∧ objects (queue_get queue s).2 = objects s
  ∧ subscribers (queue_get queue s).2 = subscribers s
  ∧ length (queues (queue_get queue s).2) = length (queues s)
  ∧ ∃ item, (queue_get queue s).1 = Ok item.
Proof.
  unfold queue_get.
  destruct (queues s !! queue) as [[|r items]|]; simpl; eauto 10.
  rewrite length_insert. eauto 10.
Qed.

Lemma subscribe_loop_tasks task_id queue s :
  tasks (subscribe_loop task_id queue s).2 = tasks s
  ∧ objects (subscribe_loop task_id queue s).2 = objects s.
Proof.
  unfold subscribe_loop, on_exception. unfold_M.
  destruct (queue_get_frame queue s) as (Ht & Ho & _ & _ & item & Hi).
  destruct (queue_get queue s) as [[item'|e] s'] eqn:E; simpl in *;
    [|discriminate].
  by destruct item'.
Qed.

Lemma anext_tasks g s :
  tasks (anext g s).2 = tasks s ∧ objects (anext g s).2 = objects s.
Proof.
  destruct g as [task_id|task_id queue|task_id queue result|]; simpl.
  - destruct (tasks s !! task_id) as [t|] eqn:Ht; [|done].
    unfold on_exception. unfold_M.
    destruct (subscribers s !! task_id) as [qs|]; simpl; [|done].
    by rewrite Ht.
  - apply subscribe_loop_tasks.
  - destruct (is_terminal _).
    + unfold_M.
      destruct (subscribe_finally_tasks task_id queue s) as (Ht & Ho & _).
      by destruct (subscribe_finally task_id queue s) as [[[]|e] s'].
    + apply subscribe_loop_tasks.
  - done.
Qed.

Lemma aclose_tasks g s :
  tasks (aclose g s).2 = tasks s ∧ objects (aclose g s).2 = objects s.
Proof.
  destruct g as [task_id|task_id queue|task_id queue result|]; simpl;
    try done; unfold_M;
    destruct (subscribe_finally_tasks task_id queue s) as (Ht & Ho & _);
    by destruct (subscribe_finally task_id queue s) as [[[]|e] s'].
Qed.

Lemma lift_task_mgr m sys : mgr (lift_task m sys).2 = (m (mgr sys)).2.
Proof. unfold lift_task. by destruct (m (mgr sys)) as [[t|e] s]. Qed.

Lemma call_frame c sys task_id task :
  tasks (mgr sys) !! task_id = Some task →
  still_stored task_id task (mgr (call c sys).2).
Proof.
  intros Ht. destruct c; simpl; rewrite ?lift_task_mgr.
  - by apply still_stored_same.
  - by apply create_task_frame.
  - rewrite get_task_state. by apply still_stored_same.
  - by apply update_status_frame.
  - by apply add_artifact_frame.
  - by apply update_status_frame.
  - by apply update_status_frame.
  - by apply update_status_frame.
  - by apply still_stored_same.
  - destruct (gens sys !! g) as [gen|]; [|by apply still_stored_same].
    destruct (anext_tasks gen (mgr sys)) as [Hta _].
    destruct (anext gen (mgr sys)) as [[[o gen']|e] s']; simpl in *;
      apply still_stored_same; by rewrite Hta.
  - destruct (gens sys !! g) as [gen|]; [|by apply still_stored_same].
    destruct (aclose_tasks gen (mgr sys)) as [Hta _].
    destruct (aclose gen (mgr sys)) as [[gen'|e] s']; simpl in *;
      apply still_stored_same; by rewrite Hta.
Qed.

Lemma run_frame calls sys task_id task :
  tasks (mgr sys) !! task_id = Some task →
  still_stored task_id task (mgr (run calls sys)).
Proof.
  revert sys task. induction calls as [|c calls IH]; intros sys task Ht.
  - by apply still_stored_same.
  - simpl. destruct (call_frame c sys task_id task Ht) as (t' & Hl & He).
    apply (still_stored_trans _ _ t'); [done|]. by apply IH.
Qed.

(** ** Terminal states, identity and metadata *)

(** C5: once the state of a task is terminal, no sequence of calls
    ([update_status], [cancel_task], [fail_task], [complete_task],
    [create_task] on the same id, [add_artifact], the steps of any
    subscription) changes its status again, and every [update_status] on
    it raises [InvalidStateTransitionError] and changes nothing. *)
Theorem terminal_state_is_final
    (calls : list Call) (sys : System) (task_id : string) (task : Task) :
  tasks (mgr sys) !! task_id = Some task →
  is_terminal (status_state task) = true →
  ∃ task',
    tasks (mgr (run calls sys)) !! task_id = Some task'
    ∧ status task' = status task
    ∧ ∀ to message now,
        update_status task_id to message now (mgr (run calls sys)) =
          (Raise (InvalidStateTransitionError (status_state task) to),
           mgr (run calls sys)).
Proof.
  intros Ht Hterm.
  destruct (run_frame calls sys task_id task Ht)
    as (task' & Hl & _ & _ & _ & _ & Hs).
  specialize (Hs Hterm).
  exists task'. split; [done|]. split; [done|].
  intros to message now.
  assert (status_state task' = status_state task) as Hst
    by (unfold status_state; by rewrite Hs).
  rewrite (update_status_rejected _ task'); [by rewrite Hst|done|].
  rewrite Hst. by apply transition_allowed_terminal.
Qed.

Lemma terminal_state_is_final_witness :
  ∃ task',
    tasks (mgr (run script_after sys_failed)) !! "t1" = Some task'
    ∧ status task' = status task_failed
    ∧ ∀ to message now,
        update_status "t1" to message now (mgr (run script_after sys_failed)) =
          (Raise (InvalidStateTransitionError (status_state task_failed) to),
           mgr (run script_after sys_failed)).
Proof.
  apply (terminal_state_is_final script_after sys_failed "t1" task_failed).
  - reflexivity.
  - reflexivity.
Defined.

(** C10: [create_task] on an id that already exists ignores its
    [metadata] argument, and no sequence of calls changes the id or the
    metadata of a stored task. *)
Theorem metadata_and_id_are_immutable
    (calls : list Call) (sys : System) (task_id : string) (task : Task)
    (message : Message) (metadata' : option Dict) (uuid : string) (now : Z) :
  tasks (mgr sys) !! task_id = Some task →
  (∃ task' s',
     create_task message (Some task_id) metadata' uuid now (mgr sys) =
       (Ok task', s')
     ∧ tasks s' !! task_id = Some task'
     ∧ metadata task' = metadata task
     ∧ id task' = id task)
  ∧ (∃ task',
       tasks (mgr (run calls sys)) !! task_id = Some task'
       ∧ id task' = id task
       ∧ metadata task' = metadata task).
Proof.
  intros Ht. split.
  - eexists _, _.
    split; [by apply (create_task_existing _ (Some task_id))|].
    simpl. by rewrite lookup_insert_eq.
  - destruct (run_frame calls sys task_id task Ht)
      as (task' & Hl & Hi & Hm & _).
    by exists task'.
Qed.

Lemma metadata_and_id_are_immutable_witness :
  (∃ task' s',
     create_task done_msg (Some "t1") (Some {[ "k" := AInt 1 ]}) "uuid-2" 200
       (mgr sys_failed) = (Ok task', s')
     ∧ tasks s' !! "t1" = Some task'
     ∧ metadata task' = metadata task_failed
     ∧ id task' = id task_failed)
  ∧ (∃ task',
       tasks (mgr (run script_after sys_failed)) !! "t1" = Some task'
       ∧ id task' = id task_failed
       ∧ metadata task' = metadata task_failed).
Proof.
  apply (metadata_and_id_are_immutable script_after sys_failed "t1"
           task_failed done_msg (Some {[ "k" := AInt 1 ]}) "uuid-2" 200).
  reflexivity.
Defined.

(** ** Convenience methods *)

(** C9: [cancel_task], [fail_task] and [complete_task] are [update_status]
    with the target [CANCELED], [FAILED], [COMPLETED]: same result, same
    exception, same final state, hence same broadcasts.  The message of a
    cancellation is a constant agent message, the message of a failure is
    an agent message whose text ends with the reason. *)
Theorem convenience_methods_are_sugar
    (task_id reason : string) (message : option Message) (now : Z)
    (s : State) :
  cancel_task task_id now s = spec_cancelTask task_id now s
  ∧ fail_task task_id reason now s = spec_failTask task_id reason now s
  ∧ complete_task task_id message now s =
      spec_completeTask task_id message now s
  ∧ role standardCancelMessage = agent
  ∧ role (messageWithReason reason) = agent
  ∧ ∃ prefix,
      parts (messageWithReason reason) = [TextPart (prefix +:+ reason)].
Proof.
  repeat split. by exists "Task failed: ".
Qed.

(** ** The registry of subscribers *)

Lemma list_remove_elem q qs :
  q ∈ qs →
  ∃ qs', list_remove q qs = Some qs'
         ∧ ∀ q', q' ≠ q → q' ∈ qs → q' ∈ qs'.
Proof.
  induction qs as [|y qs IH]; intros Hin.
  - by apply elem_of_nil in Hin.
  - simpl. destruct (decide (q = y)) as [->|Hne].
    + eexists. split; [done|]. intros q' Hq' Hin'.
      apply elem_of_cons in Hin' as [?|?]; [congruence|done].
    + apply elem_of_cons in Hin as [?|Hin]; [congruence|].
      destruct (IH Hin) as (qs' & -> & Hk).
      eexists. split; [done|]. intros q' Hq' Hin'.
      apply elem_of_cons in Hin' as [->|?]; [left|right; by apply Hk].
Qed.

Lemma keeps_registry_refl s :
  dom (tasks s) = dom (subscribers s) → keeps_registry s s.
Proof. by repeat split. Qed.

Lemma create_task_registry message key metadata uuid now s :
  dom (tasks s) = dom (subscribers s) →
  keeps_registry s (create_task message key metadata uuid now s).2.
Proof.
  intros Hk.
  destruct (tasks s !! default uuid key) as [t0|] eqn:Ht.
  - rewrite (create_task_existing _ _ t0) by done.
    repeat split; simpl; try done.
    by rewrite dom_insert_lookup_L.
  - rewrite create_task_fresh by done.
    repeat split; simpl; try done.
    + by rewrite !dom_insert_L, Hk.
    + intros task_id qs Hq. rewrite lookup_insert_ne; [done|].
      intros <-. apply not_elem_of_dom in Ht. rewrite Hk in Ht.
      apply not_elem_of_dom in Ht. congruence.
Qed.

Lemma update_status_registry key state message now s :
  dom (tasks s) = dom (subscribers s) →
  keeps_registry s (update_status key state message now s).2.
Proof.
  intros Hk.
  destruct (tasks s !! key) as [t0|] eqn:Ht.
  - destruct (transition_allowed (status_state t0) state) eqn:Hv.
    + rewrite (update_status_accepted _ t0) by done. simpl.
      unfold keeps_registry.
      match goal with |- context [broadcast ?r ?q ?s0] =>
        destruct (broadcast_frame r q s0) as (_ & -> & -> & ->) end.
      simpl. repeat split; try done.
      by rewrite dom_insert_lookup_L.
    + rewrite (update_status_rejected _ t0) by done.
      by apply keeps_registry_refl.
  - rewrite update_status_missing by done. by apply keeps_registry_refl.
Qed.

Lemma add_artifact_registry key artifact s :
  dom (tasks s) = dom (subscribers s) →
  keeps_registry s (add_artifact key artifact s).2.
Proof.
  intros Hk.
  destruct (tasks s !! key) as [t0|] eqn:Ht.
  - rewrite (add_artifact_found _ t0) by done. simpl.
    unfold keeps_registry.
    match goal with |- context [broadcast ?r ?q ?s0] =>
      destruct (broadcast_frame r q s0) as (_ & -> & -> & ->) end.
    simpl. repeat split; try done.
    by rewrite dom_insert_lookup_L.
  - rewrite add_artifact_missing by done. by apply keeps_registry_refl.
Qed.

Lemma keeps_registry_consistent sys s' :
  consistent sys →
  keeps_registry (mgr sys) s' →
  consistent (mkSystem s' (gens sys)).
Proof.
  intros [Hk Hr Hd] (Hlen & Hk' & Hsub).
  split; simpl; [done| |done].
  intros g gen task_id queue Hg Hq.
  destruct (Hr g gen task_id queue Hg Hq) as (Hlt & qs & Hqs & Hin).
  split; [by rewrite Hlen|]. exists qs. split; [by apply Hsub|done].
Qed.

Lemma subscribe_loop_eq task_id queue s :
  subscribe_loop task_id queue s =
    match queues s !! queue with
    | Some (result :: items) =>
        (Ok (Yield result, GenYielded task_id queue result),
         set_queues (<[queue := items]> (queues s)) s)
    | _ => (Ok (Pending, GenListening task_id queue), s)
    end.
Proof.
  unfold subscribe_loop, on_exception, queue_get. unfold_M.
  by destruct (queues s !! queue) as [[|r items]|].
Qed.

Lemma anext_created_found task_id task qs s :
  tasks s !! task_id = Some task →
  subscribers s !! task_id = Some qs →
  anext (GenCreated task_id) s =
    (Ok (Yield (_task_to_result task), GenListening task_id (length (queues s))),
     mkState (objects s) (queues s ++ [[]]) (tasks s)
       (<[task_id := qs ++ [length (queues s)]]> (subscribers s))).
Proof.
  intros Ht Hq. unfold anext. rewrite Ht. unfold on_exception. unfold_M.
  rewrite Hq. simpl. by rewrite Ht.
Qed.

Lemma anext_created_missing task_id s :
  tasks s !! task_id = None →
  anext (GenCreated task_id) s = (Raise (TaskNotFoundError task_id), s).
Proof. intros Ht. unfold anext. by rewrite Ht. Qed.

Lemma subscribe_finally_registered task_id queue s :
  registered task_id queue s →
  ∃ qs qs',
    subscribers s !! task_id = Some qs
    ∧ subscribe_finally task_id queue s =
        (Ok tt, set_subscribers (<[task_id := qs']> (subscribers s)) s)
    ∧ ∀ q', q' ≠ queue → q' ∈ qs → q' ∈ qs'.
Proof.
  intros (_ & qs & Hqs & Hin).
  destruct (list_remove_elem queue qs Hin) as (qs' & Hrm & Hkeep).
  exists qs, qs'. split; [done|]. split; [|done].
  unfold subscribe_finally. by rewrite Hqs, Hrm.
Qed.

Lemma registered_queues_changed task_id queue s s' :
  subscribers s' = subscribers s →
  (length (queues s) ≤ length (queues s'))%nat →
  registered task_id queue s →
  registered task_id queue s'.
Proof.
  intros Hs Hl (Hlt & qs & Hqs & Hin).
  split; [lia|]. exists qs. by rewrite Hs.
Qed.

Lemma subscribe_loop_ok gen task_id queue s :
  dom (tasks s) = dom (subscribers s) →
  gen_queue gen = Some (task_id, queue) →
  registered task_id queue s →
  ∃ o gen' s',
    subscribe_loop task_id queue s = (Ok (o, gen'), s')
    ∧ gen_step_ok gen s gen' s'.
Proof.
  intros Hk Hg Hreg. rewrite subscribe_loop_eq.
  destruct (queues s !! queue) as [[|r items]|] eqn:Hq.
  - eexists _, _, _. split; [done|].
    split; [done|]. split; [done|]. split; [done|].
    intros ?? [= <- <-]. split; [done|by left].
  - eexists _, _, _. split; [done|].
    split; [simpl; by rewrite length_insert|]. split; [done|].
    split.
    + intros id0 q0 Hr0 _.
      apply (registered_queues_changed _ _ s); simpl;
        [done|by rewrite length_insert|done].
    + intros ?? [= <- <-]. split; [|by left].
      apply (registered_queues_changed _ _ s); simpl;
        [done|by rewrite length_insert|done].
  - eexists _, _, _. split; [done|].
    split; [done|]. split; [done|]. split; [done|].
    intros ?? [= <- <-]. split; [done|by left].
Qed.

Lemma subscribe_finally_ok gen task_id queue s :
  dom (tasks s) = dom (subscribers s) →
  gen_queue gen = Some (task_id, queue) →
  registered task_id queue s →
  ∃ s',
    subscribe_finally task_id queue s = (Ok tt, s')
    ∧ gen_step_ok gen s GenClosed s'.
Proof.
  intros Hk Hg Hreg.
  destruct (subscribe_finally_registered _ _ _ Hreg)
    as (qs & qs' & Hqs & -> & Hkeep).
  eexists. split; [done|].
  split; [done|]. split.
  { simpl. rewrite dom_insert_lookup_L; [done|by rewrite Hqs]. }
  split; [|done].
  intros id0 q0 (Hlt & qs0 & Hqs0 & Hin0) Hne.
  rewrite Hg in Hne. simpl in Hne.
  split; [done|]. simpl.
  destruct (decide (task_id = id0)) as [->|Hid].
  - exists qs'. rewrite lookup_insert_eq. split; [done|].
    apply Hkeep; [congruence|]. by simplify_eq.
  - exists qs0. by rewrite lookup_insert_ne.
Qed.

Lemma anext_ok gen s :
  dom (tasks s) = dom (subscribers s) →
  (∀ task_id queue,
     gen_queue gen = Some (task_id, queue) → registered task_id queue s) →
  (∃ o gen' s',
     anext gen s = (Ok (o, gen'), s') ∧ gen_step_ok gen s gen' s')
  ∨ (∃ task_id,
       gen = GenCreated task_id
       ∧ tasks s !! task_id = None
       ∧ anext gen s = (Raise (TaskNotFoundError task_id), s)).
Proof.
  intros Hk Hreg.
  destruct gen as [task_id|task_id queue|task_id queue result|].
  - destruct (tasks s !! task_id) as [t|] eqn:Ht.
    + left.
      assert (is_Some (subscribers s !! task_id)) as [qs Hqs].
      { apply elem_of_dom. rewrite <- Hk. by apply elem_of_dom. }
      rewrite (anext_created_found _ t qs) by done.
      eexists _, _, _. split; [done|].
      split; [simpl; rewrite length_app; lia|].
      split.
      { simpl. rewrite dom_insert_lookup_L; [done|by rewrite Hqs]. }
      split.
      * intros id0 q0 (Hlt & qs0 & Hqs0 & Hin0) _.
        split; [simpl; rewrite length_app; lia|]. simpl.
        destruct (decide (task_id = id0)) as [->|Hid].
        -- eexists. rewrite lookup_insert_eq. split; [done|].
           simplify_eq. apply elem_of_app. by left.
        -- exists qs0. by rewrite lookup_insert_ne.
      * intros ?? [= <- <-]. split; [|by right].
        split; [simpl; rewrite length_app; simpl; lia|]. simpl.
        eexists. rewrite lookup_insert_eq. split; [done|].
        apply elem_of_app. right. by apply list_elem_of_singleton.
    + right. exists task_id. split; [done|]. split; [done|].
      by apply anext_created_missing.
  - left. apply subscribe_loop_ok; [done|done|by apply Hreg].
  - left. simpl. destruct (is_terminal _).
    + destruct (subscribe_finally_ok (GenYielded task_id queue result)
                  task_id queue s Hk eq_refl (Hreg _ _ eq_refl))
        as (s' & Hf & Hok).
      unfold_M. rewrite Hf. by eexists _, _, _.
    + apply subscribe_loop_ok; [done|done|by apply Hreg].
  - left. eexists _, _, _. split; [done|].
    split; [done|]. split; [done|]. split; [done|]. intros ?? [=].
Qed.

Lemma aclose_ok gen s :
  dom (tasks s) = dom (subscribers s) →
  (∀ task_id queue,
     gen_queue gen = Some (task_id, queue) → registered task_id queue s) →
  ∃ gen' s', aclose gen s = (Ok gen', s') ∧ gen_step_ok gen s gen' s'.
Proof.
  intros Hk Hreg.
  destruct gen as [task_id|task_id queue|task_id queue result|]; simpl.
  - eexists _, _. split; [done|].
    split; [done|]. split; [done|]. split; [done|]. intros ?? [=].
  - destruct (subscribe_finally_ok (GenListening task_id queue)
                task_id queue s Hk eq_refl (Hreg _ _ eq_refl))
      as (s' & Hf & Hok).
    unfold_M. rewrite Hf. by eexists _, _.
  - destruct (subscribe_finally_ok (GenYielded task_id queue result)
                task_id queue s Hk eq_refl (Hreg _ _ eq_refl))
      as (s' & Hf & Hok).
    unfold_M. rewrite Hf. by eexists _, _.
  - eexists _, _. split; [done|].
    split; [done|]. split; [done|]. split; [done|]. intros ?? [=].
Qed.

(** ** The invariant holds in every reachable system *)

Lemma init_consistent : consistent init_system.
Proof.
  split; simpl.
  - by rewrite !dom_empty_L.
  - intros g gen ?? Hg. by rewrite lookup_nil in Hg.
  - intros g1 g2 gen1 ????? Hg. by rewrite lookup_nil in Hg.
Qed.

Lemma gen_step_consistent sys g gen gen' s' :
  consistent sys →
  gens sys !! g = Some gen →
  gen_step_ok gen (mgr sys) gen' s' →
  consistent (mkSystem s' (<[g := gen']> (gens sys))).
Proof.
  intros [Hk Hr Hd] Hg (Hlen & Hk' & Hothers & Hown).
  assert (g < length (gens sys))%nat as Hlt by by eapply lookup_lt_Some.
  split; simpl; [done| |].
  - intros g0 gen0 id0 q0 Hg0 Hq0.
    destruct (decide (g = g0)) as [->|Hne].
    + rewrite list_lookup_insert_eq in Hg0 by done. simplify_eq.
      by apply Hown.
    + rewrite list_lookup_insert_ne in Hg0 by done.
      apply Hothers; [by eapply Hr|].
      destruct (gen_queue gen) as [[id1 q1]|] eqn:Hq1; [|done].
      simpl. intros [= ->]. apply Hne. symmetry. by eapply Hd.
  - intros g1 g2 gen1 gen2 id1 id2 q Hg1 Hg2 Hq1 Hq2.
    destruct (decide (g = g1)) as [->|Hne1];
      destruct (decide (g1 = g2)) as [->|Hne2]; try done.
    + rewrite list_lookup_insert_eq in Hg1 by done.
      rewrite list_lookup_insert_ne in Hg2 by done. simplify_eq.
      destruct (Hown _ _ Hq1) as (_ & [Hold|Hnew]).
      * by eapply Hd.
      * destruct (Hr _ _ _ _ Hg2 Hq2) as (Hq & _). lia.
    + rewrite list_lookup_insert_ne in Hg1 by done.
      destruct (decide (g = g2)) as [->|Hne3].
      * rewrite list_lookup_insert_eq in Hg2 by done. simplify_eq.
        destruct (Hown _ _ Hq2) as (_ & [Hold|Hnew]).
        -- by eapply Hd.
        -- destruct (Hr _ _ _ _ Hg1 Hq1) as (Hq & _). lia.
      * rewrite list_lookup_insert_ne in Hg2 by done. by eapply Hd.
Qed.

Lemma gen_closed_ok gen s :
  dom (tasks s) = dom (subscribers s) → gen_step_ok gen s GenClosed s.
Proof.
  intros Hk. split; [done|]. split; [done|]. split; [done|]. intros ?? [=].
Qed.

Lemma lift_task_snd m sys :
  (lift_task m sys).2 = mkSystem (m (mgr sys)).2 (gens sys).
Proof. unfold lift_task. by destruct (m (mgr sys)) as [[t|e] s]. Qed.

Lemma call_consistent c sys : consistent sys → consistent (call c sys).2.
Proof.
  intros Hc. pose proof Hc as [Hk Hr Hd].
  destruct c; simpl; rewrite ?lift_task_snd;
    try (apply keeps_registry_consistent; [done|]).
  - by split.
  - by apply create_task_registry.
  - rewrite get_task_state. by apply keeps_registry_refl.
  - by apply update_status_registry.
  - by apply add_artifact_registry.
  - by apply update_status_registry.
  - by apply update_status_registry.
  - by apply update_status_registry.
  - split; simpl; [done| |].
    + intros g gen id0 q0 Hg Hq.
      apply lookup_app_Some in Hg as [Hg|[_ Hg]]; [by eapply Hr|].
      apply list_lookup_singleton_Some in Hg as [_ <-]. done.
    + intros g1 g2 gen1 gen2 id1 id2 q Hg1 Hg2 Hq1 Hq2.
      apply lookup_app_Some in Hg1 as [Hg1|[_ Hg1]];
        [|apply list_lookup_singleton_Some in Hg1 as [_ <-]; done].
      apply lookup_app_Some in Hg2 as [Hg2|[_ Hg2]];
        [|apply list_lookup_singleton_Some in Hg2 as [_ <-]; done].
      by eapply Hd.
  - destruct (gens sys !! g) as [gen|] eqn:Hg; [|done].
    destruct (anext_ok gen (mgr sys) Hk) as
      [(o & gen' & s' & -> & Hok)|(task_id & -> & Hnone & ->)].
    + intros ??. by eapply Hr.
    + simpl. by eapply gen_step_consistent.
    + simpl. eapply gen_step_consistent; [done|done|].
      by apply gen_closed_ok.
  - destruct (gens sys !! g) as [gen|] eqn:Hg; [|done].
    destruct (aclose_ok gen (mgr sys) Hk) as (gen' & s' & -> & Hok).
    + intros ??. by eapply Hr.
    + simpl. by eapply gen_step_consistent.
Qed.

Lemma reachable_consistent sys : reachable sys → consistent sys.
Proof.
  induction 1 as [|c sys _ IH]; [apply init_consistent|].
  by apply call_consistent.
Qed.

Lemma run_reachable calls sys : reachable sys → reachable (run calls sys).
Proof.
  revert sys. induction calls as [|c calls IH]; intros sys Hr; [done|].
  simpl. apply IH. by constructor.
Qed.

(** ** Exceptions *)

Lemma lift_task_raise m sys e :
  (lift_task m sys).1 = Raise e → (m (mgr sys)).1 = Raise e.
Proof.
  unfold lift_task. destruct (m (mgr sys)) as [[t|e'] s]; simpl; [done|].
  by intros [= ->].
Qed.

Lemma update_status_raise task_id state message now s e :
  (update_status task_id state message now s).1 = Raise e →
  e = TaskNotFoundError task_id
  ∨ ∃ from, e = InvalidStateTransitionError from state.
Proof.
  destruct (tasks s !! task_id) as [t0|] eqn:Ht.
  - destruct (transition_allowed (status_state t0) state) eqn:Hv.
    + by rewrite (update_status_accepted _ t0).
    + rewrite (update_status_rejected _ t0) by done.
      intros [= <-]. right. by eexists.
  - rewrite update_status_missing by done. intros [= <-]. by left.
Qed.

Lemma call_raises c sys e :
  consistent sys → (call c sys).1 = Raise e → may_raise c e.
Proof.
  intros [Hk Hr Hd].
  destruct c; simpl; try done;
    try (intros He; apply lift_task_raise in He; revert He).
  - destruct (tasks (mgr sys) !! default uuid task_id) as [t0|] eqn:Ht.
    + by rewrite (create_task_existing _ _ t0).
    + by rewrite create_task_fresh.
  - unfold get_task. destruct (tasks (mgr sys) !! task_id); [done|].
    by intros [= <-].
  - apply update_status_raise.
  - destruct (tasks (mgr sys) !! task_id) as [t0|] eqn:Ht.
    + by rewrite (add_artifact_found _ t0).
    + rewrite add_artifact_missing by done. by intros [= <-].
  - apply update_status_raise.
  - apply update_status_raise.
  - apply update_status_raise.
  - destruct (gens sys !! g) as [gen|] eqn:Hg; [|done].
    destruct (anext_ok gen (mgr sys) Hk) as
      [(o & gen' & s' & -> & Hok)|(task_id & -> & Hnone & ->)].
    + intros ??. by eapply Hr.
    + done.
    + simpl. intros [= <-]. by eexists.
  - destruct (gens sys !! g) as [gen|] eqn:Hg; [|done].
    destruct (aclose_ok gen (mgr sys) Hk) as (gen' & s' & -> & Hok).
    + intros ??. by eapply Hr.
    + done.
Qed.

(** ** Subscriptions *)

(** C6: for a task that exists, in any system the clients can reach, the
    first [__anext__] of [subscribe(task_id)] registers a queue and
    yields at once a snapshot carrying the id, status, artifacts and
    metadata of the task at that moment; it leaves the tasks and the
    artifact objects untouched and does not wait for any mutation. *)
Theorem subscribe_bootstrap_snapshot
    (sys : System) (task_id : string) (task : Task) :
  reachable sys →
  tasks (mgr sys) !! task_id = Some task →
  ∃ snapshot queue s',
    anext (GenCreated task_id) (mgr sys) =
      (Ok (Yield snapshot, GenListening task_id queue), s')
    ∧ res_id snapshot = id task
    ∧ res_status snapshot = status task
    ∧ res_artifacts snapshot = artifacts task
    ∧ res_metadata snapshot = metadata task
    ∧ tasks s' = tasks (mgr sys)
    ∧ objects s' = objects (mgr sys)
    ∧ registered task_id queue s'
    ∧ (call (Anext (length (gens sys))) (call (Subscribe task_id) sys).2).1 =
        Ok (ROutcome (Yield snapshot)).
Proof.
  intros Hreach Ht.
  destruct (reachable_consistent sys Hreach) as [Hk _ _].
  assert (is_Some (subscribers (mgr sys) !! task_id)) as [qs Hqs].
  { apply elem_of_dom. rewrite <- Hk. by apply elem_of_dom. }
  pose proof (anext_created_found task_id task qs (mgr sys) Ht Hqs) as Heq.
  eexists _, _, _. split; [exact Heq|].
  do 6 (split; [done|]). split.
  - split; [simpl; rewrite length_app; simpl; lia|]. simpl.
    eexists. rewrite lookup_insert_eq. split; [done|].
    apply elem_of_app. right. by apply list_elem_of_singleton.
  - cbn [call snd mgr gens].
    rewrite lookup_app_r by done. rewrite Nat.sub_diag. cbn [lookup list_lookup].
    by rewrite Heq.
Qed.

Lemma subscribe_bootstrap_snapshot_witness :
  ∃ snapshot queue s',
    anext (GenCreated "t1") (mgr sys_failed) =
      (Ok (Yield snapshot, GenListening "t1" queue), s')
    ∧ res_id snapshot = id task_failed
    ∧ res_status snapshot = status task_failed
    ∧ res_artifacts snapshot = artifacts task_failed
    ∧ res_metadata snapshot = metadata task_failed
    ∧ tasks s' = tasks (mgr sys_failed)
    ∧ objects s' = objects (mgr sys_failed)
    ∧ registered "t1" queue s'
    ∧ (call (Anext (length (gens sys_failed)))
         (call (Subscribe "t1") sys_failed).2).1 =
        Ok (ROutcome (Yield snapshot)).
Proof.
  apply (subscribe_bootstrap_snapshot sys_failed "t1" task_failed).
  - exact (run_reachable script_failed init_system reachable_init).
  - reflexivity.
Defined.

(** A queue that was just registered is empty: whatever the state of the
    task, the consumer is suspended after the first snapshot until the
    next broadcast. *)
Lemma bootstrap_then_pending task_id task qs s :
  tasks s !! task_id = Some task →
  subscribers s !! task_id = Some qs →
  ∃ queue s',
    anext (GenCreated task_id) s =
      (Ok (Yield (_task_to_result task), GenListening task_id queue), s')
    ∧ anext (GenListening task_id queue) s' =
        (Ok (Pending, GenListening task_id queue), s').
Proof.
  intros Ht Hq. eexists _, _.
  split; [by apply (anext_created_found _ task qs)|].
  cbn [anext]. rewrite subscribe_loop_eq. cbn [queues].
  by rewrite lookup_app_r, Nat.sub_diag.
Qed.

(** C7, at a task that is already [COMPLETED] when the client subscribes:
    the first snapshot is terminal, yet the stream does not end after it.
    The consumer stays suspended, and when [add_artifact] broadcasts, the
    stream yields a second terminal snapshot and only then ends. *)
Theorem subscribe_to_terminal_task_does_not_end :
  ∃ first second,
    (call (Anext 0%nat) sys_completed).1 = Ok (ROutcome (Yield first))
    ∧ state (res_status first) = COMPLETED
    ∧ is_terminal (state (res_status first)) = true
    ∧ (call (Anext 0%nat) (run [Anext 0%nat] sys_completed)).1 =
        Ok (ROutcome Pending)
    ∧ (call (Anext 0%nat)
         (run [Anext 0%nat; Anext 0%nat; AddArtifact "t1" 0%nat]
              sys_completed)).1 = Ok (ROutcome (Yield second))
    ∧ state (res_status second) = COMPLETED
    ∧ res_artifacts second = [0%nat]
    ∧ (call (Anext 0%nat)
         (run [Anext 0%nat; Anext 0%nat; AddArtifact "t1" 0%nat; Anext 0%nat]
              sys_completed)).1 = Ok (ROutcome StopAsyncIteration).
Proof.
  eexists _, _. repeat split; vm_compute; reflexivity.
Qed.

(** The scenario of the specification: a subscriber present from the
    creation on receives [SUBMITTED], [WORKING], [COMPLETED], and the
    stream ends. *)
Lemma subscribe_three_snapshots :
  let sys :=
    run [ Anext 0%nat;
          UpdateStatus "t1" WORKING None 101;
          UpdateStatus "t1" COMPLETED (Some done_msg) 102 ] sys_watched in
  (call (Anext 0%nat) sys_watched).1 =
    Ok (ROutcome (Yield (mkTaskResult "t1" (mkTaskStatus SUBMITTED None 100)
                           [] ∅)))
  ∧ (drain 3 0 sys).1 =
      [ Ok (ROutcome (Yield (mkTaskResult "t1"
                               (mkTaskStatus WORKING None 101) [] ∅)));
        Ok (ROutcome (Yield (mkTaskResult "t1"
                               (mkTaskStatus COMPLETED (Some done_msg) 102)
                               [] ∅)));
        Ok (ROutcome StopAsyncIteration) ]
  ∧ gens (drain 3 0 sys).2 = [GenClosed]
  ∧ subscribers (mgr (drain 3 0 sys).2) !! "t1" = Some [].
Proof. repeat split. Qed.

(** A subscriber that is registered and finds in its queue the snapshots
    [pre], none of them terminal, then a terminal snapshot [last]: it
    receives [pre], then [last], and the stream ends there, whatever was
    queued after [last]; the queue is then taken off the registry. *)
Lemma listening_stream_ends_at_terminal pre :
  ∀ g task_id queue s last post,
    resumes_in_loop g task_id queue →
    registered task_id queue s →
    queues s !! queue = Some (pre ++ last :: post) →
    Forall (λ r, is_terminal (state (res_status r)) = false) pre →
    is_terminal (state (res_status last)) = true →
    ∃ s',
      consume (length pre + 2) g s =
        ((Ok ∘ Yield <$> pre ++ [last]) ++ [Ok StopAsyncIteration],
         GenClosed, s')
      ∧ tasks s' = tasks s
      ∧ objects s' = objects s.
Proof.
  induction pre as [|r pre IH];
    intros g task_id queue s last post Hg Hreg Hq Hpre Hlast.
  - assert (anext g s = subscribe_loop task_id queue s) as Hstep.
    { destruct Hg as [->|(r0 & -> & Hr0)]; [done|]. cbn [anext].
      by rewrite Hr0. }
    cbn [length Nat.add consume]. rewrite Hstep, subscribe_loop_eq, Hq.
    cbn [app anext]. rewrite Hlast.
    set (s1 := set_queues (<[queue := post]> (queues s)) s).
    assert (registered task_id queue s1) as Hreg1.
    { apply (registered_queues_changed _ _ s); [done| |done].
      simpl. by rewrite length_insert. }
    destruct (subscribe_finally_registered _ _ _ Hreg1)
      as (qs & qs' & _ & Hfin & _).
    unfold_M. rewrite Hfin. by eexists.
  - assert (anext g s = subscribe_loop task_id queue s) as Hstep.
    { destruct Hg as [->|(r0 & -> & Hr0)]; [done|]. cbn [anext].
      by rewrite Hr0. }
    apply Forall_cons in Hpre as [Hr Hpre].
    cbn [length Nat.add consume]. rewrite Hstep, subscribe_loop_eq, Hq.
    cbn [app].
    set (s1 := set_queues (<[queue := pre ++ last :: post]> (queues s)) s).
    destruct (IH (GenYielded task_id queue r) task_id queue s1 last post)
      as (s' & Hc & Hta & Ho); try done.
    + right. by exists r.
    + apply (registered_queues_changed _ _ s); [done| |done].
      simpl. by rewrite length_insert.
    + simpl. apply list_lookup_insert_eq. by eapply lookup_lt_Some.
    + rewrite Hc. by exists s'.
Qed.

(** ** Missing tasks and the errors of the interface *)

(** C8: for an id that has no task, [get_task], [update_status],
    [add_artifact] and the first [__anext__] of [subscribe] raise
    [TaskNotFoundError] and leave the state as it was; and in every
    reachable system a call raises nothing but [TaskNotFoundError] or
    [InvalidStateTransitionError], the latter from [update_status] and
    the convenience methods only. *)
Theorem missing_task_raises_not_found :
  (∀ (s : State) (task_id : string) (state : TaskState)
     (message : option Message) (now : Z) (artifact : aref),
     tasks s !! task_id = None →
     get_task task_id s = (Raise (TaskNotFoundError task_id), s)
     ∧ update_status task_id state message now s =
         (Raise (TaskNotFoundError task_id), s)
     ∧ add_artifact task_id artifact s =
         (Raise (TaskNotFoundError task_id), s)
     ∧ anext (GenCreated task_id) s = (Raise (TaskNotFoundError task_id), s))
  ∧ (∀ (sys : System) (c : Call) (e : Error),
       reachable sys →
       (call c sys).1 = Raise e →
       may_raise c e).
Proof.
  split.
  - intros s task_id state message now artifact Hnone.
    split; [unfold get_task; by rewrite Hnone|].
    split; [by apply update_status_missing|].
    split; [by apply add_artifact_missing|].
    by apply anext_created_missing.
  - intros sys c e Hreach. apply call_raises.
    by apply reachable_consistent.
Qed.

Lemma missing_task_raises_not_found_witness :
  (get_task "t2" (mgr sys_failed) =
     (Raise (TaskNotFoundError "t2"), mgr sys_failed)
   ∧ update_status "t2" WORKING None 103 (mgr sys_failed) =
       (Raise (TaskNotFoundError "t2"), mgr sys_failed)
   ∧ add_artifact "t2" 0%nat (mgr sys_failed) =
       (Raise (TaskNotFoundError "t2"), mgr sys_failed)
   ∧ anext (GenCreated "t2") (mgr sys_failed) =
       (Raise (TaskNotFoundError "t2"), mgr sys_failed))
  ∧ may_raise (CompleteTask "t1" None 103)
      (InvalidStateTransitionError FAILED COMPLETED).
Proof.
  split.
  - apply (proj1 missing_task_raises_not_found (mgr sys_failed) "t2"
             WORKING None 103 0%nat).
    reflexivity.
  - apply (proj2 missing_task_raises_not_found sys_failed
             (CompleteTask "t1" None 103)
             (InvalidStateTransitionError FAILED COMPLETED)).
    + exact (run_reachable script_failed init_system reachable_init).
    + reflexivity.
Defined.

(** ** Artifact indices *)

Lemma unattached_spec artifact s :
  unattached artifact s = true →
  (artifact < length (objects s))%nat
  ∧ ∀ task_id task,
      tasks s !! task_id = Some task → artifact ∉ artifacts task.
Proof.
  unfold unattached. intros [H1 H2]%andb_prop.
  apply bool_decide_eq_true in H1. apply bool_decide_eq_true in H2.
  split; [done|]. intros task_id task Ht.
  by apply (map_Forall_lookup_1 _ _ _ _ H2 Ht).
Qed.

Lemma indexed_same_heap s s' :
  objects s' = objects s →
  (∀ task_id task',
     tasks s' !! task_id = Some task' →
     artifacts task' = []
     ∨ ∃ task, tasks s !! task_id = Some task
               ∧ artifacts task' = artifacts task) →
  indexed s → indexed s'.
Proof.
  intros Ho Ht Hi task_id task' i artifact Hl Ha.
  destruct (Ht _ _ Hl) as [Hnil|(task & Hl0 & Heq)].
  - by rewrite Hnil in Ha.
  - rewrite Ho. rewrite Heq in Ha. by eapply Hi.
Qed.

Lemma create_task_indexed message key metadata uuid now s :
  indexed s → indexed (create_task message key metadata uuid now s).2.
Proof.
  apply indexed_same_heap.
  - destruct (tasks s !! default uuid key) as [t0|] eqn:Ht.
    + by rewrite (create_task_existing _ _ t0).
    + by rewrite create_task_fresh.
  - intros task_id task'.
    destruct (tasks s !! default uuid key) as [t0|] eqn:Ht.
    + rewrite (create_task_existing _ _ t0) by done. simpl.
      intros [[<- <-]|[Hne Hl]]%lookup_insert_Some; right; eauto.
    + rewrite create_task_fresh by done. simpl.
      intros [[<- <-]|[Hne Hl]]%lookup_insert_Some; [by left|right; eauto].
Qed.

Lemma update_status_indexed key state message now s :
  indexed s → indexed (update_status key state message now s).2.
Proof.
  destruct (tasks s !! key) as [t0|] eqn:Ht.
  - destruct (transition_allowed (status_state t0) state) eqn:Hv.
    + rewrite (update_status_accepted _ t0) by done. simpl.
      match goal with |- context [broadcast ?r ?q ?s0] =>
        destruct (broadcast_frame r q s0) as (Ho & Hta & _) end.
      apply indexed_same_heap; [by rewrite Ho|].
      intros task_id task'. rewrite Hta. simpl.
      intros [[<- <-]|[Hne Hl]]%lookup_insert_Some; right; [|eauto].
      exists t0. split; [done|]. unfold updated_task. by destruct message.
    + by rewrite (update_status_rejected _ t0).
  - by rewrite update_status_missing.
Qed.

Lemma add_artifact_indexed key artifact s :
  indexed s →
  unattached artifact s = true →
  indexed (add_artifact key artifact s).2.
Proof.
  intros Hi [Hlt Hfresh]%unattached_spec.
  destruct (tasks s !! key) as [t0|] eqn:Ht;
    [|by rewrite add_artifact_missing].
  rewrite (add_artifact_found _ t0) by done. simpl.
  match goal with |- context [broadcast ?r ?q ?s0] =>
    destruct (broadcast_frame r q s0) as (Ho & Hta & _) end.
  intros task_id task' i a. rewrite Ho, Hta. simpl.
  assert (∀ task j b,
    tasks s !! task_id = Some task →
    artifacts task !! j = Some b →
    index <$> alter (set_index (Z.of_nat (length (artifacts t0))))
                artifact (objects s) !! b = Some (Z.of_nat j)) as Hold.
  { intros task j b Hl Hb.
    rewrite list_lookup_alter_ne; [by eapply Hi|].
    intros <-. apply (Hfresh _ _ Hl). by eapply list_elem_of_lookup_2. }
  intros [[<- <-]|[Hne Hl]]%lookup_insert_Some Ha; [|by eapply Hold].
  simpl in Ha. apply lookup_app_Some in Ha as [Ha|[Hge Ha]].
  - by eapply Hold.
  - apply list_lookup_singleton_Some in Ha as [Hz <-].
    assert (i = length (artifacts t0)) as -> by lia.
    rewrite list_lookup_alter_eq.
    destruct (lookup_lt_is_Some_2 (objects s) artifact Hlt) as [obj ->].
    done.
Qed.

Lemma call_indexed c sys :
  indexed (mgr sys) →
  match c with
  | AddArtifact _ artifact => unattached artifact (mgr sys) = true
  | _ => True
  end →
  indexed (mgr (call c sys).2).
Proof.
  intros Hi Hc. destruct c; simpl; rewrite ?lift_task_mgr.
  - intros task_id task i ref Hl Ha. simpl.
    specialize (Hi _ _ _ _ Hl Ha).
    destruct (objects (mgr sys) !! ref) as [obj|] eqn:Hobj; [|done].
    by rewrite (lookup_app_l_Some _ _ _ _ Hobj).
  - by apply create_task_indexed.
  - by rewrite get_task_state.
  - by apply update_status_indexed.
  - by apply add_artifact_indexed.
  - by apply update_status_indexed.
  - by apply update_status_indexed.
  - by apply update_status_indexed.
  - done.
  - destruct (gens sys !! g) as [gen|]; [|done].
    destruct (anext_tasks gen (mgr sys)) as [Hta Ho].
    destruct (anext gen (mgr sys)) as [[[o gen']|e] s']; simpl in *;
      (eapply indexed_same_heap; [exact Ho| |exact Hi]);
      intros ??; rewrite Hta; right; eauto.
  - destruct (gens sys !! g) as [gen|]; [|done].
    destruct (aclose_tasks gen (mgr sys)) as [Hta Ho].
    destruct (aclose gen (mgr sys)) as [[gen'|e] s']; simpl in *;
      (eapply indexed_same_heap; [exact Ho| |exact Hi]);
      intros ??; rewrite Hta; right; eauto.
Qed.

Lemma run_indexed calls sys :
  indexed (mgr sys) →
  fresh_artifacts calls sys = true →
  indexed (mgr (run calls sys)).
Proof.
  revert sys. induction calls as [|c calls IH]; intros sys Hi Hf; [done|].
  simpl in Hf. apply andb_prop in Hf as [Hc Hf].
  simpl. apply IH; [|done]. apply call_indexed; [done|].
  by destruct c.
Qed.

Lemma init_indexed : indexed (mgr init_system).
Proof.
  intros task_id task i a Hl. change (tasks (mgr init_system)) with (∅ : gmap string Task) in Hl.
  by rewrite lookup_empty in Hl.
Qed.

(** C4, at one artifact object handed to [add_artifact] twice: both
    positions of [artifacts] hold the same object, whose [index] the
    second call has set to 1, so [artifacts[0].index] is 1 and the
    invariant [artifacts[i].index == i] does not hold after every
    sequence of calls. *)
Theorem same_artifact_twice_breaks_index :
  (∃ task,
     tasks (mgr (run script_same_artifact init_system)) !! "t1" = Some task
     ∧ artifacts task = [0; 0]%nat
     ∧ index <$> objects (mgr (run script_same_artifact init_system)) !! 0%nat
       = Some 1)
  ∧ ¬ (∀ calls, indexed (mgr (run calls init_system))).
Proof.
  split.
  - eexists. repeat split.
  - intros H.
    specialize (H script_same_artifact "t1"
                  (mkTask "t1" (mkTaskStatus SUBMITTED None 100)
                     [0; 0]%nat [hello] ∅) 0%nat 0%nat eq_refl eq_refl).
    vm_compute in H. discriminate.
Qed.

(** Where [add_artifact] does keep the indices: as long as every call
    receives an artifact object that no task holds yet,
    [artifacts[i].index == i] at every position of every task after any
    sequence of calls; and one more such [add_artifact] appends the object
    at the end and sets its [index] to that position, whatever [index] the
    object carried. *)
Lemma fresh_artifacts_indexed (calls : list Call) (sys : System) :
  indexed (mgr sys) →
  fresh_artifacts calls sys = true →
  indexed (mgr (run calls sys))
  ∧ ∀ task_id task artifact,
      tasks (mgr (run calls sys)) !! task_id = Some task →
      unattached artifact (mgr (run calls sys)) = true →
      ∃ task' s',
        add_artifact task_id artifact (mgr (run calls sys)) = (Ok task', s')
        ∧ artifacts task' = artifacts task ++ [artifact]
        ∧ index <$> objects s' !! artifact =
            Some (Z.of_nat (length (artifacts task)))
        ∧ indexed s'.
Proof.
  intros Hi Hf.
  pose proof (run_indexed calls sys Hi Hf) as Hrun.
  split; [done|].
  intros task_id task artifact Ht Hu.
  pose proof (add_artifact_indexed task_id artifact _ Hrun Hu) as Hadd.
  rewrite (add_artifact_found _ task) in * by done.
  eexists _, _. split; [done|]. split; [done|]. split; [|done].
  eapply (Hadd task_id (artifacts_append artifact task)
            (length (artifacts task)) artifact).
  - simpl.
    match goal with |- context [broadcast ?r ?q ?s0] =>
      destruct (broadcast_frame r q s0) as (_ & -> & _) end.
    simpl. apply lookup_insert_eq.
  - simpl. by rewrite lookup_app_r, Nat.sub_diag.
Qed.

Lemma fresh_artifacts_indexed_example :
  indexed (mgr (run script_two_artifacts init_system))
  ∧ ∃ task' s',
      add_artifact "t1" 1%nat (mgr (run script_two_artifacts init_system)) =
        (Ok task', s')
      ∧ artifacts task' = [0; 1]%nat
      ∧ index <$> objects s' !! 1%nat = Some 1
      ∧ indexed s'.
Proof.
  destruct (fresh_artifacts_indexed script_two_artifacts init_system)
    as [Hi Hadd].
  - exact init_indexed.
  - reflexivity.
  - split; [exact Hi|].
    apply (Hadd "t1"
             (mkTask "t1" (mkTaskStatus SUBMITTED None 100) [0%nat] [hello] ∅)
             1%nat).
    + reflexivity.
    + reflexivity.
Defined.

(** * Further properties of the task manager *)

(** ** The life of a stored task *)

Lemma update_status_effect key state message now s task_id task :
  tasks s !! task_id = Some task →
  ∃ task',
    tasks (update_status key state message now s).2 !! task_id = Some task'
    ∧ task_effect task task'.
Proof.
  intros Ht.
  destruct (tasks s !! key) as [t0|] eqn:Hk.
  - destruct (transition_allowed (status_state t0) state) eqn:Hv.
    + rewrite (update_status_accepted _ t0) by done. simpl.
      match goal with |- context [broadcast ?r ?q ?s0] =>
        destruct (broadcast_frame r q s0) as (_ & -> & _) end.
      simpl. destruct (decide (key = task_id)) as [He|Hne].
      * rewrite He in *. rewrite lookup_insert_eq. eexists. split; [done|].
        assert (t0 = task) as -> by congruence. by constructor.
      * rewrite lookup_insert_ne by done. exists task. split; [done|constructor].
    + rewrite (update_status_rejected _ t0) by done.
      exists task. split; [done|constructor].
  - rewrite update_status_missing by done.
    exists task. split; [done|constructor].
Qed.

Lemma call_task_effect c sys task_id task :
  tasks (mgr sys) !! task_id = Some task →
  ∃ task',
    tasks (mgr (call c sys).2) !! task_id = Some task'
    ∧ task_effect task task'.
Proof.
  intros Ht. destruct c; simpl; rewrite ?lift_task_mgr;
    try (by apply update_status_effect);
    try (exists task; split; [done|constructor]).
  - destruct (tasks (mgr sys) !! default uuid task_id0) as [t0|] eqn:Hk.
    + rewrite (create_task_existing _ _ t0) by done. simpl.
      destruct (decide (default uuid task_id0 = task_id)) as [He|Hne].
      * rewrite He in *. rewrite lookup_insert_eq. eexists. split; [done|].
        assert (t0 = task) as -> by congruence. constructor.
      * rewrite lookup_insert_ne by done.
        exists task. split; [done|constructor].
    + rewrite create_task_fresh by done. simpl.
      rewrite lookup_insert_ne by congruence.
      exists task. split; [done|constructor].
  - rewrite get_task_state. exists task. split; [done|constructor].
  - destruct (tasks (mgr sys) !! task_id0) as [t0|] eqn:Hk.
    + rewrite (add_artifact_found _ t0) by done. simpl.
      match goal with |- context [broadcast ?r ?q ?s0] =>
        destruct (broadcast_frame r q s0) as (_ & -> & _) end.
      simpl. destruct (decide (task_id0 = task_id)) as [He|Hne].
      * rewrite He in *. rewrite lookup_insert_eq. eexists. split; [done|].
        assert (t0 = task) as -> by congruence. constructor.
      * rewrite lookup_insert_ne by done.
        exists task. split; [done|constructor].
    + rewrite add_artifact_missing by done.
      exists task. split; [done|constructor].
  - destruct (gens sys !! g) as [gen|];
      [|exists task; split; [done|constructor]].
    destruct (anext_tasks gen (mgr sys)) as [Hta _].
    destruct (anext gen (mgr sys)) as [[[o gen']|e] s']; simpl in *;
      exists task; rewrite Hta; split; try done; constructor.
  - destruct (gens sys !! g) as [gen|];
      [|exists task; split; [done|constructor]].
    destruct (aclose_tasks gen (mgr sys)) as [Hta _].
    destruct (aclose gen (mgr sys)) as [[gen'|e] s']; simpl in *;
      exists task; rewrite Hta; split; try done; constructor.
Qed.

Lemma task_effect_state task task' :
  task_effect task task' →
  status_state task' = status_state task
  ∨ edge (status_state task) (status_state task').
Proof.
  intros [|m|state message now Hv|a]; try (by left).
  right. unfold edge, updated_task. by destruct message.
Qed.

Lemma edge_not_submitted from to : edge from to → to ≠ SUBMITTED.
Proof. unfold edge. by destruct from, to. Qed.

Lemma edge_irreflexive st : ¬ edge st st.
Proof. unfold edge. by destruct st. Qed.

(** X1: whatever the clients call, the state of a stored task moves along
    the edges of [VALID_TRANSITIONS] only: the state after a script is
    reachable from the state before it by a path of allowed transitions;
    in particular a task that has left [SUBMITTED] is never [SUBMITTED]
    again. *)
Theorem state_follows_transition_table
    (calls : list Call) (sys : System) (task_id : string) (task : Task) :
  tasks (mgr sys) !! task_id = Some task →
  ∃ task',
    tasks (mgr (run calls sys)) !! task_id = Some task'
    ∧ rtc edge (status_state task) (status_state task')
    ∧ (status_state task ≠ SUBMITTED → status_state task' ≠ SUBMITTED).
Proof.
  revert sys task. induction calls as [|c calls IH]; intros sys task Ht.
  - exists task. split; [done|]. split; [apply rtc_refl|done].
  - destruct (call_task_effect c sys task_id task Ht) as (t1 & Hl1 & He).
    destruct (IH _ _ Hl1) as (t2 & Hl2 & Hpath & Hsub).
    exists t2. split; [done|].
    destruct (task_effect_state _ _ He) as [Heq|Hedge].
    + rewrite Heq in *. by split.
    + split; [by eapply rtc_l|].
      intros _. apply Hsub. by eapply edge_not_submitted.
Qed.

Lemma state_follows_transition_table_witness :
  ∃ task',
    tasks (mgr (run script_roundtrip sys_t1)) !! "t1" = Some task'
    ∧ rtc edge (status_state task_t1) (status_state task')
    ∧ (status_state task_t1 ≠ SUBMITTED → status_state task' ≠ SUBMITTED).
Proof.
  apply (state_follows_transition_table script_roundtrip sys_t1 "t1" task_t1).
  reflexivity.
Defined.

Lemma task_effect_grows task task' :
  task_effect task task' →
  history task `prefix_of` history task'
  ∧ artifacts task `prefix_of` artifacts task'
  ∧ (length (history task') ≤ S (length (history task)))%nat
  ∧ (length (artifacts task') ≤ S (length (artifacts task)))%nat.
Proof.
  intros [|m|state message now Hv|a]; simpl;
    rewrite ?length_app; simpl;
    repeat split; try done; try lia; try (by apply prefix_app_r).
  all: unfold updated_task; destruct message; simpl;
    rewrite ?length_app; simpl; try done; try lia;
    by apply prefix_app_r.
Qed.

(** X2: a stored task is never removed and its lists are append-only:
    after any script the task is still stored, its earlier history and
    artifacts are prefixes of the later ones, and a script of [n] calls
    adds at most [n] messages and at most [n] artifacts. *)
Theorem history_and_artifacts_append_only
    (calls : list Call) (sys : System) (task_id : string) (task : Task) :
  tasks (mgr sys) !! task_id = Some task →
  ∃ task',
    tasks (mgr (run calls sys)) !! task_id = Some task'
    ∧ history task `prefix_of` history task'
    ∧ artifacts task `prefix_of` artifacts task'
    ∧ (length (history task') ≤ length (history task) + length calls)%nat
    ∧ (length (artifacts task') ≤ length (artifacts task) + length calls)%nat.
Proof.
  revert sys task. induction calls as [|c calls IH]; intros sys task Ht.
  - exists task. simpl. repeat split; try done; lia.
  - destruct (call_task_effect c sys task_id task Ht) as (t1 & Hl1 & He).
    destruct (IH _ _ Hl1) as (t2 & Hl2 & Hh & Ha & Hlh & Hla).
    destruct (task_effect_grows _ _ He) as (Hh1 & Ha1 & Hlh1 & Hla1).
    exists t2. split; [done|].
    split; [by etrans|]. split; [by etrans|].
    simpl. lia.
Qed.

Lemma history_and_artifacts_append_only_witness :
  ∃ task',
    tasks (mgr (run script_roundtrip sys_t1)) !! "t1" = Some task'
    ∧ history task_t1 `prefix_of` history task'
    ∧ artifacts task_t1 `prefix_of` artifacts task'
    ∧ (length (history task')
       ≤ length (history task_t1) + length script_roundtrip)%nat
    ∧ (length (artifacts task')
       ≤ length (artifacts task_t1) + length script_roundtrip)%nat.
Proof.
  apply (history_and_artifacts_append_only script_roundtrip sys_t1 "t1"
           task_t1).
  reflexivity.
Defined.

(** ** When the convenience methods succeed *)

Lemma update_status_ok_iff task_id task state message now s :
  tasks s !! task_id = Some task →
  (∃ task' s', update_status task_id state message now s = (Ok task', s'))
  ↔ transition_allowed (status_state task) state = true.
Proof.
  intros Ht. split.
  - intros (task' & s' & Heq).
    destruct (transition_allowed (status_state task) state) eqn:Hv; [done|].
    by rewrite (update_status_rejected _ task) in Heq.
  - intros Hv. rewrite (update_status_accepted _ task) by done. by eexists _, _.
Qed.

(** X3: on a stored task, [cancel_task] and [fail_task] succeed exactly
    when the task is not in a terminal state, and [complete_task]
    succeeds exactly when the task is [WORKING]; an [update_status] to
    the state the task is already in never succeeds. *)
Theorem convenience_methods_success
    (s : State) (task_id : string) (task : Task) (reason : string)
    (message : option Message) (now : Z) :
  tasks s !! task_id = Some task →
  ((∃ task' s', cancel_task task_id now s = (Ok task', s'))
   ↔ is_terminal (status_state task) = false)
  ∧ ((∃ task' s', fail_task task_id reason now s = (Ok task', s'))
     ↔ is_terminal (status_state task) = false)
  ∧ ((∃ task' s', complete_task task_id message now s = (Ok task', s'))
     ↔ status_state task = WORKING)
  ∧ update_status task_id (status_state task) message now s =
      (Raise (InvalidStateTransitionError (status_state task)
                (status_state task)), s).
Proof.
  intros Ht. unfold cancel_task, fail_task, complete_task.
  rewrite !(update_status_ok_iff _ task) by done.
  split; [|split; [|split]].
  - by destruct (status_state task).
  - by destruct (status_state task).
  - by destruct (status_state task).
  - apply update_status_rejected; [done|]. by destruct (status_state task).
Qed.

Lemma convenience_methods_success_witness :
  ((∃ task' s', cancel_task "t1" 101 (mgr sys_t1) = (Ok task', s'))
   ↔ is_terminal (status_state task_t1) = false)
  ∧ ((∃ task' s', fail_task "t1" "boom" 101 (mgr sys_t1) = (Ok task', s'))
     ↔ is_terminal (status_state task_t1) = false)
  ∧ ((∃ task' s',
        complete_task "t1" (Some done_msg) 101 (mgr sys_t1) = (Ok task', s'))
     ↔ status_state task_t1 = WORKING)
  ∧ update_status "t1" (status_state task_t1) (Some done_msg) 101 (mgr sys_t1) =
      (Raise (InvalidStateTransitionError (status_state task_t1)
                (status_state task_t1)), mgr sys_t1).
Proof.
  apply (convenience_methods_success (mgr sys_t1) "t1" task_t1 "boom"
           (Some done_msg) 101).
  reflexivity.
Defined.

(** ** How tasks enter the store *)

Lemma update_status_no_new_task key state message now s task_id :
  tasks s !! task_id = None →
  tasks (update_status key state message now s).2 !! task_id = None.
Proof.
  intros Hnone.
  destruct (tasks s !! key) as [t0|] eqn:Hk.
  - destruct (transition_allowed (status_state t0) state) eqn:Hv.
    + rewrite (update_status_accepted _ t0) by done. simpl.
      match goal with |- context [broadcast ?r ?q ?s0] =>
        destruct (broadcast_frame r q s0) as (_ & -> & _) end.
      simpl. rewrite lookup_insert_ne; [done|congruence].
    + by rewrite (update_status_rejected _ t0).
  - by rewrite update_status_missing.
Qed.

Lemma add_artifact_no_new_task key artifact s task_id :
  tasks s !! task_id = None →
  tasks (add_artifact key artifact s).2 !! task_id = None.
Proof.
  intros Hnone.
  destruct (tasks s !! key) as [t0|] eqn:Hk.
  - rewrite (add_artifact_found _ t0) by done. simpl.
    match goal with |- context [broadcast ?r ?q ?s0] =>
      destruct (broadcast_frame r q s0) as (_ & -> & _) end.
    simpl. rewrite lookup_insert_ne; [done|congruence].
  - by rewrite add_artifact_missing.
Qed.

Lemma call_new_task c sys task_id task' :
  tasks (mgr sys) !! task_id = None →
  tasks (mgr (call c sys).2) !! task_id = Some task' →
  ∃ message key metadata uuid now,
    c = CreateTask message key metadata uuid now
    ∧ default uuid key = task_id
    ∧ task' = mkTask task_id (mkTaskStatus SUBMITTED None now) [] [message]
                (default ∅ metadata).
Proof.
  intros Hnone. destruct c; simpl; rewrite ?lift_task_mgr;
    unfold cancel_task, fail_task, complete_task;
    rewrite ?update_status_no_new_task, ?add_artifact_no_new_task,
      ?get_task_state by done;
    try congruence.
  - destruct (tasks (mgr sys) !! default uuid task_id0) as [t0|] eqn:Hk.
    + rewrite (create_task_existing _ _ t0) by done. simpl.
      rewrite lookup_insert_ne by congruence. congruence.
    + rewrite create_task_fresh by done. simpl.
      intros [[He <-]|[Hne Hl]]%lookup_insert_Some; [|congruence].
      eexists _, _, _, _, _. split; [done|]. split; [done|]. by rewrite He.
  - destruct (gens sys !! g) as [gen|]; [|simpl; congruence].
    destruct (anext_tasks gen (mgr sys)) as [Hta _].
    destruct (anext gen (mgr sys)) as [[[o gen']|e] s']; simpl in *;
      rewrite Hta; congruence.
  - destruct (gens sys !! g) as [gen|]; [|simpl; congruence].
    destruct (aclose_tasks gen (mgr sys)) as [Hta _].
    destruct (aclose gen (mgr sys)) as [[gen'|e] s']; simpl in *;
      rewrite Hta; congruence.
Qed.

Lemma task_effect_id task task' :
  task_effect task task' →
  id task' = id task ∧ (history task ≠ [] → history task' ≠ []).
Proof.
  intros [|m|state message now Hv|a]; simpl; try done.
  - split; [done|]. intros _. by destruct (history task).
  - unfold updated_task. destruct message; simpl; [|done].
    split; [done|]. intros _. by destruct (history task).
Qed.

Lemma reachable_task_id sys task_id task :
  reachable sys →
  tasks (mgr sys) !! task_id = Some task →
  id task = task_id ∧ history task ≠ [].
Proof.
  intros Hreach. revert task_id task.
  induction Hreach as [|c sys _ IH]; intros task_id task Ht.
  - change (tasks (mgr init_system)) with (∅ : gmap string Task) in Ht.
    by rewrite lookup_empty in Ht.
  - destruct (tasks (mgr sys) !! task_id) as [t0|] eqn:Hold.
    + destruct (call_task_effect c sys task_id t0 Hold) as (t1 & Hl & He).
      assert (t1 = task) as -> by congruence.
      destruct (IH _ _ Hold) as [Hid Hh].
      destruct (task_effect_id _ _ He) as [Hid' Hh'].
      split; [congruence|by apply Hh'].
    + destruct (call_new_task c sys task_id task Hold Ht)
        as (m & key & md & uuid & now & _ & _ & ->). done.
Qed.

(** X4: tasks enter the store through [create_task] only, and in every
    system the clients can reach a stored task carries the key it is
    stored under as its [id] and has at least its first message in its
    history; a task whose key is new after a call is the fresh
    [SUBMITTED] task of that [create_task], without artifacts. *)
Theorem stored_task_id_is_key :
  (∀ (sys : System) (task_id : string) (task : Task),
     reachable sys →
     tasks (mgr sys) !! task_id = Some task →
     id task = task_id ∧ history task ≠ [])
  ∧ (∀ (c : Call) (sys : System) (task_id : string) (task' : Task),
       tasks (mgr sys) !! task_id = None →
       tasks (mgr (call c sys).2) !! task_id = Some task' →
       status_state task' = SUBMITTED
       ∧ artifacts task' = []
       ∧ ∃ message key metadata uuid now,
           c = CreateTask message key metadata uuid now
           ∧ history task' = [message]).
Proof.
  split; [apply reachable_task_id|].
  intros c sys task_id task' Hnone Hl.
  destruct (call_new_task c sys task_id task' Hnone Hl)
    as (m & key & md & uuid & now & -> & _ & ->).
  split; [done|]. split; [done|]. by eexists _, _, _, _, _.
Qed.

Lemma stored_task_id_is_key_witness :
  (id task_failed = "t1" ∧ history task_failed ≠ [])
  ∧ (status_state task_t1 = SUBMITTED
     ∧ artifacts task_t1 = []
     ∧ ∃ message key metadata uuid now,
         CreateTask hello (Some "t1") None "uuid-0" 100 =
           CreateTask message key metadata uuid now
         ∧ history task_t1 = [message]).
Proof.
  split.
  - apply (proj1 stored_task_id_is_key sys_failed "t1" task_failed).
    + exact (run_reachable script_failed init_system reachable_init).
    + reflexivity.
  - apply (proj2 stored_task_id_is_key
             (CreateTask hello (Some "t1") None "uuid-0" 100)
             init_system "t1" task_t1).
    + reflexivity.
    + reflexivity.
Defined.

(** ** The registry of queues *)

Lemma list_remove_Some_inv q qs qs' :
  list_remove q qs = Some qs' →
  (∀ x, x ∈ qs' → x ∈ qs) ∧ (NoDup qs → NoDup qs' ∧ q ∉ qs').
Proof.
  revert qs'. induction qs as [|y qs IH]; intros qs' Hrm; [done|].
  simpl in Hrm. destruct (decide (q = y)) as [->|Hne].
  - injection Hrm as <-. split; [intros x Hx; by right|].
    intros [Hy Hnd]%NoDup_cons. done.
  - destruct (list_remove q qs) as [l|] eqn:Hl; [|done].
    injection Hrm as <-. destruct (IH l eq_refl) as [Hsub Hnd].
    split.
    + intros x [->|Hx]%elem_of_cons; [by left|right; by apply Hsub].
    + intros [Hy Hnd']%NoDup_cons. destruct (Hnd Hnd') as [Hl1 Hl2].
      split.
      * apply NoDup_cons. split; [|done]. intros Hin. by apply Hy, Hsub.
      * intros [->|Hx]%elem_of_cons; done.
Qed.

Lemma registry_step_wf s s' :
  registry_wf s → registry_step s s' → registry_wf s'.
Proof.
  intros [Ha Hn Hd] [Hs Hl|k Hs Hl|k qs Hk Hs Hl|k q qs qs' Hk Hrm Hs Hl].
  - split; rewrite Hs.
    + intros id0 l x Hl0 Hx. specialize (Ha _ _ _ Hl0 Hx). lia.
    + done.
    + done.
  - split; rewrite Hs.
    + intros id0 l x [[<- <-]|[Hne Hl0]]%lookup_insert_Some Hx;
        [by apply elem_of_nil in Hx|].
      specialize (Ha _ _ _ Hl0 Hx). lia.
    + intros id0 l [[<- <-]|[Hne Hl0]]%lookup_insert_Some;
        [apply NoDup_nil_2|by eapply Hn].
    + intros id1 id2 l1 l2 x
        [[<- <-]|[Hne1 Hl1]]%lookup_insert_Some
        [[<- <-]|[Hne2 Hl2]]%lookup_insert_Some Hx1 Hx2;
        try (by apply elem_of_nil in Hx1);
        try (by apply elem_of_nil in Hx2).
      by eapply Hd.
  - assert (∀ id0 l, subscribers s !! id0 = Some l → length (queues s) ∉ l)
      as Hfresh.
    { intros id0 l Hl0 Hin. specialize (Ha _ _ _ Hl0 Hin). lia. }
    split; rewrite Hs.
    + intros id0 l x [[<- <-]|[Hne Hl0]]%lookup_insert_Some Hx.
      * apply elem_of_app in Hx as [Hx|Hx%list_elem_of_singleton].
        -- specialize (Ha _ _ _ Hk Hx). lia.
        -- lia.
      * specialize (Ha _ _ _ Hl0 Hx). lia.
    + intros id0 l [[<- <-]|[Hne Hl0]]%lookup_insert_Some; [|by eapply Hn].
      apply NoDup_app. split; [by eapply Hn|].
      split; [|apply NoDup_singleton].
      intros x Hx ->%list_elem_of_singleton. by eapply Hfresh.
    + intros id1 id2 l1 l2 x
        [[<- <-]|[Hne1 Hl1]]%lookup_insert_Some
        [[<- <-]|[Hne2 Hl2]]%lookup_insert_Some Hx1 Hx2; try done.
      * apply elem_of_app in Hx1 as [Hx1|Hx1%list_elem_of_singleton].
        -- by eapply Hd.
        -- subst x. by destruct (Hfresh _ _ Hl2).
      * apply elem_of_app in Hx2 as [Hx2|Hx2%list_elem_of_singleton].
        -- by eapply Hd.
        -- subst x. by destruct (Hfresh _ _ Hl1).
      * by eapply Hd.
  - destruct (list_remove_Some_inv _ _ _ Hrm) as [Hsub Hnd].
    split; rewrite Hs.
    + intros id0 l x [[<- <-]|[Hne Hl0]]%lookup_insert_Some Hx.
      * specialize (Ha _ _ _ Hk (Hsub _ Hx)). lia.
      * specialize (Ha _ _ _ Hl0 Hx). lia.
    + intros id0 l [[<- <-]|[Hne Hl0]]%lookup_insert_Some; [|by eapply Hn].
      by apply Hnd, (Hn k).
    + intros id1 id2 l1 l2 x
        [[<- <-]|[Hne1 Hl1]]%lookup_insert_Some
        [[<- <-]|[Hne2 Hl2]]%lookup_insert_Some Hx1 Hx2; try done.
      * eapply Hd; [exact Hk|exact Hl2|by apply Hsub|done].
      * eapply Hd; [exact Hl1|exact Hk|done|by apply Hsub].
      * by eapply Hd.
Qed.

Lemma create_task_registry_step message key metadata uuid now s :
  registry_step s (create_task message key metadata uuid now s).2.
Proof.
  destruct (tasks s !! default uuid key) as [t0|] eqn:Ht.
  - rewrite (create_task_existing _ _ t0) by done. by apply registry_same.
  - rewrite create_task_fresh by done.
    by apply (registry_reset _ _ (default uuid key)).
Qed.

Lemma update_status_registry_step key state message now s :
  registry_step s (update_status key state message now s).2.
Proof.
  destruct (tasks s !! key) as [t0|] eqn:Ht.
  - destruct (transition_allowed (status_state t0) state) eqn:Hv.
    + rewrite (update_status_accepted _ t0) by done. simpl.
      match goal with |- context [broadcast ?r ?q ?s0] =>
        destruct (broadcast_frame r q s0) as (_ & _ & Hs & Hl) end.
      apply registry_same; [by rewrite Hs|]. rewrite Hl. done.
    + rewrite (update_status_rejected _ t0) by done. by apply registry_same.
  - rewrite update_status_missing by done. by apply registry_same.
Qed.

Lemma add_artifact_registry_step key artifact s :
  registry_step s (add_artifact key artifact s).2.
Proof.
  destruct (tasks s !! key) as [t0|] eqn:Ht.
  - rewrite (add_artifact_found _ t0) by done. simpl.
    match goal with |- context [broadcast ?r ?q ?s0] =>
      destruct (broadcast_frame r q s0) as (_ & _ & Hs & Hl) end.
    apply registry_same; [by rewrite Hs|]. rewrite Hl. done.
  - rewrite add_artifact_missing by done. by apply registry_same.
Qed.

Lemma subscribe_finally_registry_step task_id queue s :
  registry_step s (subscribe_finally task_id queue s).2.
Proof.
  unfold subscribe_finally.
  destruct (subscribers s !! task_id) as [qs|] eqn:Hq;
    [|by apply registry_same].
  destruct (list_remove queue qs) as [qs'|] eqn:Hrm;
    [|by apply registry_same].
  by apply (registry_unregister _ _ task_id queue qs qs').
Qed.

Lemma subscribe_loop_registry_step task_id queue s :
  registry_step s (subscribe_loop task_id queue s).2.
Proof.
  rewrite subscribe_loop_eq.
  destruct (queues s !! queue) as [[|r items]|]; try by apply registry_same.
  apply registry_same; [done|]. simpl. by rewrite length_insert.
Qed.

Lemma anext_registry_step gen s : registry_step s (anext gen s).2.
Proof.
  destruct gen as [task_id|task_id queue|task_id queue result|].
  - destruct (tasks s !! task_id) as [t|] eqn:Ht;
      [|rewrite anext_created_missing by done; by apply registry_same].
    destruct (subscribers s !! task_id) as [qs|] eqn:Hq.
    + rewrite (anext_created_found _ t qs) by done.
      apply (registry_register _ _ task_id qs); [done|done|].
      simpl. rewrite length_app. simpl. lia.
    + unfold anext. rewrite Ht. unfold on_exception. unfold_M.
      rewrite Hq. simpl.
      apply registry_same; [done|]. simpl. rewrite length_app. lia.
  - apply subscribe_loop_registry_step.
  - cbn [anext]. destruct (is_terminal _).
    + pose proof (subscribe_finally_registry_step task_id queue s) as Hf.
      unfold_M. by destruct (subscribe_finally task_id queue s) as [[[]|e] s'].
    + apply subscribe_loop_registry_step.
  - by apply registry_same.
Qed.

Lemma aclose_registry_step gen s : registry_step s (aclose gen s).2.
Proof.
  destruct gen as [task_id|task_id queue|task_id queue result|]; cbn [aclose];
    try (by apply registry_same);
    pose proof (subscribe_finally_registry_step task_id queue s) as Hf;
    unfold_M; by destruct (subscribe_finally task_id queue s) as [[[]|e] s'].
Qed.

Lemma call_registry_step c sys : registry_step (mgr sys) (mgr (call c sys).2).
Proof.
  destruct c; simpl; rewrite ?lift_task_mgr.
  - by apply registry_same.
  - apply create_task_registry_step.
  - rewrite get_task_state. by apply registry_same.
  - apply update_status_registry_step.
  - apply add_artifact_registry_step.
  - apply update_status_registry_step.
  - apply update_status_registry_step.
  - apply update_status_registry_step.
  - by apply registry_same.
  - destruct (gens sys !! g) as [gen|]; [|by apply registry_same].
    pose proof (anext_registry_step gen (mgr sys)) as H.
    by destruct (anext gen (mgr sys)) as [[[o gen']|e] s'].
  - destruct (gens sys !! g) as [gen|]; [|by apply registry_same].
    pose proof (aclose_registry_step gen (mgr sys)) as H.
    by destruct (aclose gen (mgr sys)) as [[gen'|e] s'].
Qed.

Lemma reachable_registry_wf sys : reachable sys → registry_wf (mgr sys).
Proof.
  induction 1 as [|c sys _ IH].
  - split; simpl; intros *; by rewrite lookup_empty.
  - eapply registry_step_wf; [exact IH|apply call_registry_step].
Qed.

(** ** Delivery of snapshots *)

Lemma broadcast_queues result qs s queue :
  NoDup qs →
  queues (broadcast result qs s) !! queue =
    if decide (queue ∈ qs)
    then (λ items, items ++ [result]) <$> queues s !! queue
    else queues s !! queue.
Proof.
  unfold broadcast. revert s.
  induction qs as [|q0 qs IH]; intros s Hnd; [done|].
  apply NoDup_cons in Hnd as [Hq0 Hnd]. simpl. rewrite (IH _ Hnd).
  change (queues (queue_put result s q0))
    with (alter (λ items, items ++ [result]) q0 (queues s)).
  destruct (decide (queue = q0)) as [->|Hne].
  - rewrite decide_False by done.
    rewrite decide_True by by left. apply list_lookup_alter_eq.
  - rewrite list_lookup_alter_ne by done.
    destruct (decide (queue ∈ qs)) as [Hin|Hnin].
    + rewrite decide_True by by right. done.
    + rewrite decide_False; [done|].
      by intros [?|?]%elem_of_cons.
Qed.

Lemma subscriber_queue_after_broadcast sys task_id qs result s0 g gen id' queue :
  reachable sys →
  subscribers (mgr sys) !! task_id = Some qs →
  subscribers s0 = subscribers (mgr sys) →
  queues s0 = queues (mgr sys) →
  gens sys !! g = Some gen →
  gen_queue gen = Some (id', queue) →
  ∃ items,
    queues (mgr sys) !! queue = Some items
    ∧ queues (broadcast result qs s0) !! queue =
        Some (if decide (id' = task_id) then items ++ [result] else items).
Proof.
  intros Hreach Hqs Hs0 Hq0 Hg Hgq.
  destruct (reachable_registry_wf sys Hreach) as [Ha Hn Hd].
  destruct (reachable_consistent sys Hreach) as [_ Hr _].
  destruct (Hr _ _ _ _ Hg Hgq) as (Hlt & qs' & Hqs' & Hin).
  destruct (lookup_lt_is_Some_2 _ _ Hlt) as [items Hitems].
  exists items. split; [done|].
  rewrite broadcast_queues by by eapply Hn.
  rewrite Hq0, Hitems.
  destruct (decide (id' = task_id)) as [->|Hne].
  - assert (qs' = qs) as -> by congruence.
    by rewrite decide_True.
  - rewrite decide_False; [done|].
    intros Hin'. apply Hne. by eapply Hd.
Qed.

(** X5: in every reachable system, a successful [update_status] and an
    [add_artifact] on a task put exactly one snapshot, the one of the
    task as the call leaves it, at the end of the queue of every
    subscriber of that task, and leave the queues of the subscribers of
    the other tasks as they are: nothing is lost, duplicated or
    reordered. *)
Theorem broadcast_reaches_each_subscriber_once
    (sys : System) (task_id : string) (task : Task) (state : TaskState)
    (message : option Message) (now : Z) (artifact : aref)
    (g : nat) (gen : Gen) (id' : string) (queue : qref) :
  reachable sys →
  tasks (mgr sys) !! task_id = Some task →
  gens sys !! g = Some gen →
  gen_queue gen = Some (id', queue) →
  ∃ items,
    queues (mgr sys) !! queue = Some items
    ∧ (transition_allowed (status_state task) state = true →
       queues (update_status task_id state message now (mgr sys)).2 !! queue =
         Some (if decide (id' = task_id)
               then items
                    ++ [_task_to_result (updated_task state message now task)]
               else items))
    ∧ queues (add_artifact task_id artifact (mgr sys)).2 !! queue =
        Some (if decide (id' = task_id)
              then items ++ [_task_to_result (artifacts_append artifact task)]
              else items).
Proof.
  intros Hreach Ht Hg Hgq.
  destruct (reachable_consistent sys Hreach) as [Hk _ _].
  assert (is_Some (subscribers (mgr sys) !! task_id)) as [qs Hqs].
  { apply elem_of_dom. rewrite <- Hk. by apply elem_of_dom. }
  destruct (reachable_consistent sys Hreach) as [_ Hr _].
  destruct (Hr _ _ _ _ Hg Hgq) as (Hlt & _).
  destruct (lookup_lt_is_Some_2 _ _ Hlt) as [items Hitems].
  exists items. split; [done|]. split.
  - intros Hv. rewrite (update_status_accepted _ task) by done.
    rewrite Hqs. simpl.
    edestruct (subscriber_queue_after_broadcast sys task_id qs) as
      (items' & Hi' & ->); [done|done| | |done|done|]; [done|done|].
    by assert (items' = items) as -> by congruence.
  - rewrite (add_artifact_found _ task) by done.
    rewrite Hqs. simpl.
    edestruct (subscriber_queue_after_broadcast sys task_id qs) as
      (items' & Hi' & ->); [done|done| | |done|done|]; [done|done|].
    by assert (items' = items) as -> by congruence.
Qed.

Lemma broadcast_reaches_each_subscriber_once_witness :
  ∃ items,
    queues (mgr sys_subscribers) !! 2%nat = Some items
    ∧ (transition_allowed (status_state task_t1) WORKING = true →
       queues (update_status "t1" WORKING None 101 (mgr sys_subscribers)).2
         !! 2%nat =
         Some (if decide ("t1" = "t1")
               then items
                    ++ [_task_to_result (updated_task WORKING None 101 task_t1)]
               else items))
    ∧ queues (add_artifact "t1" 0%nat (mgr sys_subscribers)).2 !! 2%nat =
        Some (if decide ("t1" = "t1")
              then items ++ [_task_to_result (artifacts_append 0%nat task_t1)]
              else items).
Proof.
  apply (broadcast_reaches_each_subscriber_once sys_subscribers "t1" task_t1
           WORKING None 101 0%nat 2%nat (GenListening "t1" 2%nat) "t1" 2%nat).
  - exact (run_reachable script_subscribers init_system reachable_init).
  - reflexivity.
  - reflexivity.
  - reflexivity.
Defined.

(** ** The end of a subscription *)

Lemma finally_unregisters task_id queue s :
  registry_wf s →
  registered task_id queue s →
  ∃ s',
    subscribe_finally task_id queue s = (Ok tt, s')
    ∧ (∀ id0 qs, subscribers s' !! id0 = Some qs → queue ∉ qs)
    ∧ (∀ id0 q0, q0 ≠ queue → registered id0 q0 s → registered id0 q0 s')
    ∧ queues s' = queues s
    ∧ tasks s' = tasks s
    ∧ objects s' = objects s.
Proof.
  intros [Ha Hn Hd] (Hlt & qs & Hqs & Hin).
  destruct (list_remove_elem queue qs Hin) as (qs' & Hrm & Hkeep).
  destruct (list_remove_Some_inv _ _ _ Hrm) as [Hsub Hnd].
  destruct (Hnd (Hn _ _ Hqs)) as [_ Hnotin].
  eexists. split; [unfold subscribe_finally; by rewrite Hqs, Hrm|].
  simpl. split; [|split; [|done]].
  - intros id0 l [[<- <-]|[Hne Hl0]]%lookup_insert_Some; [done|].
    intros Hin0. apply Hne. by eapply Hd.
  - intros id0 q0 Hq0 (Hlt0 & l & Hl0 & Hin0). split; [done|]. simpl.
    destruct (decide (task_id = id0)) as [->|Hne].
    + exists qs'. rewrite lookup_insert_eq. split; [done|].
      apply Hkeep; [done|]. by simplify_eq.
    + exists l. by rewrite lookup_insert_ne.
Qed.

(** X6: in every reachable system, when the consumer closes a stream
    ([aclose]), or resumes it after a terminal snapshot, the [finally]
    block takes the queue of the stream off the registry: the queue is
    listed under no task any more, so no later broadcast reaches it,
    the generator is closed, and every other subscriber stays registered
    with its queue untouched. *)
Theorem closed_stream_is_unregistered
    (sys : System) (g : nat) (gen : Gen) (task_id : string) (queue : qref) :
  reachable sys →
  gens sys !! g = Some gen →
  gen_queue gen = Some (task_id, queue) →
  let closes (c : Call) (reply : Reply) :=
    ∃ sys',
      call c sys = (Ok reply, sys')
      ∧ gens sys' !! g = Some GenClosed
      ∧ (∀ id0 qs, subscribers (mgr sys') !! id0 = Some qs → queue ∉ qs)
      ∧ (∀ g' gen' id' q',
           g' ≠ g → gens sys !! g' = Some gen' →
           gen_queue gen' = Some (id', q') →
           gens sys' !! g' = Some gen' ∧ registered id' q' (mgr sys'))
      ∧ queues (mgr sys') = queues (mgr sys)
      ∧ tasks (mgr sys') = tasks (mgr sys) in
  closes (Aclose g) RNone
  ∧ (∀ result,
       gen = GenYielded task_id queue result →
       is_terminal (state (res_status result)) = true →
       closes (Anext g) (ROutcome StopAsyncIteration)).
Proof.
  intros Hreach Hg Hgq closes.
  pose proof (reachable_registry_wf sys Hreach) as Hwf.
  destruct (reachable_consistent sys Hreach) as [_ Hr Hdist].
  destruct (finally_unregisters task_id queue (mgr sys) Hwf
              (Hr _ _ _ _ Hg Hgq))
    as (s' & Hfin & Hgone & Hothers & Hq & Hta & _).
  assert (g < length (gens sys))%nat as Hlt by by eapply lookup_lt_Some.
  assert (∀ g' gen' id' q',
    g' ≠ g → gens sys !! g' = Some gen' →
    gen_queue gen' = Some (id', q') →
    <[g := GenClosed]> (gens sys) !! g' = Some gen'
    ∧ registered id' q' s') as Hrest.
  { intros g' gen' id' q' Hne Hg' Hgq'.
    rewrite list_lookup_insert_ne by done. split; [done|].
    apply Hothers; [|by eapply Hr].
    intros ->. apply Hne. by eapply Hdist. }
  split.
  - unfold closes. exists (mkSystem s' (<[g := GenClosed]> (gens sys))).
    split.
    + cbn [call]. rewrite Hg.
      destruct gen as [?|id0 q0|id0 q0 r0|]; try done;
        simpl in Hgq; injection Hgq as -> ->;
        cbn [aclose]; unfold_M; by rewrite Hfin.
    + simpl. split; [by apply list_lookup_insert_eq|]. done.
  - intros result -> Hterm. unfold closes.
    exists (mkSystem s' (<[g := GenClosed]> (gens sys))).
    split.
    + cbn [call]. rewrite Hg. cbn [anext]. rewrite Hterm.
      unfold_M. by rewrite Hfin.
    + simpl. split; [by apply list_lookup_insert_eq|]. done.
Qed.

Lemma closed_stream_is_unregistered_witness :
  ∃ sys',
    call (Aclose 0%nat) sys_subscribers = (Ok RNone, sys')
    ∧ gens sys' !! 0%nat = Some GenClosed
    ∧ (∀ id0 qs, subscribers (mgr sys') !! id0 = Some qs → 0%nat ∉ qs)
    ∧ (∀ g' gen' id' q',
         g' ≠ 0%nat → gens sys_subscribers !! g' = Some gen' →
         gen_queue gen' = Some (id', q') →
         gens sys' !! g' = Some gen' ∧ registered id' q' (mgr sys'))
    ∧ queues (mgr sys') = queues (mgr sys_subscribers)
    ∧ tasks (mgr sys') = tasks (mgr sys_subscribers).
Proof.
  apply (closed_stream_is_unregistered sys_subscribers 0%nat
           (GenListening "t1" 0%nat) "t1" 0%nat).
  - exact (run_reachable script_subscribers init_system reachable_init).
  - reflexivity.
  - reflexivity.
Defined.

(** ** [list_tasks] *)

Lemma call_keys c sys k :
  is_Some (tasks (mgr (call c sys).2) !! k)
  ↔ is_Some (tasks (mgr sys) !! k)
    ∨ ∃ message task_id metadata uuid now,
        c = CreateTask message task_id metadata uuid now
        ∧ default uuid task_id = k.
Proof.
  split.
  - intros [t' Ht'].
    destruct (tasks (mgr sys) !! k) as [t|] eqn:Hold; [by left|right].
    destruct (call_new_task c sys k t' Hold Ht')
      as (m & key & md & uuid & now & -> & <- & _).
    by eexists _, _, _, _, _.
  - intros [[t Ht]|(m & key & md & uuid & now & -> & <-)].
    + destruct (call_task_effect c sys k t Ht) as (t' & Hl & _). by eexists.
    + simpl. rewrite lift_task_mgr.
      destruct (tasks (mgr sys) !! default uuid key) as [t0|] eqn:Hk.
      * rewrite (create_task_existing _ _ t0) by done. simpl.
        rewrite lookup_insert_eq. by eexists.
      * rewrite create_task_fresh by done. simpl.
        rewrite lookup_insert_eq. by eexists.
Qed.

Lemma order_after_sound c sys order :
  ordered_keys order (mgr sys) →
  ordered_keys (order_after c sys order) (mgr (call c sys).2).
Proof.
  intros [Hnd Hdom].
  assert ((∀ m t md u n, c ≠ CreateTask m t md u n) →
          ordered_keys order (mgr (call c sys).2)) as Hother.
  { intros Hne. split; [done|]. intros k. rewrite call_keys, Hdom.
    split; [by left|].
    intros [?|(m & t & md & u & n & -> & _)]; [done|].
    by destruct (Hne m t md u n). }
  destruct c; try (cbn [order_after]; apply Hother; intros; discriminate).
  clear Hother. cbn [order_after].
  destruct (decide (is_Some (tasks (mgr sys) !! default uuid task_id)))
    as [Hin|Hnin].
  - split; [done|]. intros k. rewrite call_keys, Hdom. split; [by left|].
    intros [?|(m & t & md & u & n & Hc & Hk)]; [done|].
    injection Hc as <- <- <- <- <-. by rewrite <- Hk.
  - split.
    + apply NoDup_app. split; [done|]. split; [|apply NoDup_singleton].
      intros x Hx ->%list_elem_of_singleton. by apply Hnin, Hdom.
    + intros k. rewrite call_keys, elem_of_app, list_elem_of_singleton, Hdom.
      split.
      * intros [?| ->]; [by left|right]. by eexists _, _, _, _, _.
      * intros [?|(m & t & md & u & n & Hc & Hk)]; [by left|right].
        injection Hc as <- <- <- <- <-. by rewrite <- Hk.
Qed.

Lemma keys_in_order_sound calls sys order :
  ordered_keys order (mgr sys) →
  ordered_keys (keys_in_order calls sys order) (mgr (run calls sys)).
Proof.
  revert sys order. induction calls as [|c calls IH]; intros sys order Ho;
    [done|].
  simpl. apply IH. by apply order_after_sound.
Qed.

Lemma init_ordered_keys : ordered_keys [] (mgr init_system).
Proof.
  split; [apply NoDup_nil_2|]. intros k. split.
  - by intros ?%elem_of_nil.
  - change (tasks (mgr init_system)) with (∅ : gmap string Task).
    rewrite lookup_empty. by intros [? ?].
Qed.

Lemma slice_to_prefix {A} (stop : Z) (l : list A) :
  slice_to stop l `prefix_of` l.
Proof. unfold slice_to. destruct (0 <=? stop)%Z; apply prefix_take. Qed.

Lemma slice_to_sublist {A} (stop : Z) (l : list A) :
  slice_to stop l `sublist_of` l.
Proof. unfold slice_to. destruct (0 <=? stop)%Z; apply sublist_take. Qed.

Lemma slice_to_length {A} (stop : Z) (l : list A) :
  length (slice_to stop l) =
    if (0 <=? stop)%Z then Nat.min (Z.to_nat stop) (length l)
    else (length l - Z.to_nat (- stop))%nat.
Proof.
  unfold slice_to. destruct (0 <=? stop)%Z; rewrite length_take; lia.
Qed.

Lemma slice_to_all {A} (stop : Z) (l : list A) :
  (Z.of_nat (length l) ≤ stop)%Z → slice_to stop l = l.
Proof.
  intros H. unfold slice_to.
  destruct (0 <=? stop)%Z eqn:E; [|lia]. apply take_ge. lia.
Qed.

Lemma tasks_values_length order s :
  ordered_keys order s →
  length (tasks_values order s) = size (tasks s)
  ∧ length order = size (tasks s).
Proof.
  intros [Hnd Hdom].
  assert (length order = size (tasks s)) as Hlen.
  { rewrite <- size_dom. unfold size, set_size. simpl.
    apply Permutation_length, NoDup_Permutation;
      [done|apply NoDup_elements|].
    intros k. by rewrite elem_of_elements, elem_of_dom, Hdom. }
  split; [|done]. rewrite <- Hlen.
  assert (∀ k, k ∈ order → is_Some (tasks s !! k)) as Hall
    by (intros k; by rewrite Hdom).
  clear Hnd Hdom Hlen. unfold tasks_values.
  induction order as [|k order IH]; [done|]. simpl.
  destruct (Hall k) as [t ->]; [by left|]. simpl. f_equal.
  apply IH. intros k' Hk'. apply Hall. by right.
Qed.

Lemma tasks_values_elem order s t :
  ordered_keys order s →
  t ∈ tasks_values order s ↔ ∃ k, tasks s !! k = Some t.
Proof.
  intros [_ Hdom]. unfold tasks_values. rewrite list_elem_of_omap. split.
  - intros (k & _ & Hk). by exists k.
  - intros (k & Hk). exists k. split; [|done]. apply Hdom. by eexists.
Qed.

(** X7: [list_tasks], on the manager reached by any script: every task
    it returns is stored and, under a state filter, is in that state; the
    result keeps the insertion order of [_tasks]; a [limit >= 0] bounds
    its length; a [limit] that is not smaller than the number of stored
    tasks returns every stored task that passes the filter; and a
    negative [limit] is a Python slice bound counted from the end: it
    drops the last [-limit] matching tasks instead of meaning no limit. *)
Theorem list_tasks_result
    (calls : list Call) (state : option TaskState) (limit : Z) :
  let s := mgr (run calls init_system) in
  let order := keys_in_order calls init_system [] in
  let matching (t : Task) :=
    (∃ k, tasks s !! k = Some t) ∧ ∀ st, state = Some st → status_state t = st in
  (∀ t, t ∈ list_tasks order state limit s → matching t)
  ∧ list_tasks order state limit s `sublist_of` tasks_values order s
  ∧ ((0 ≤ limit)%Z →
     (Z.of_nat (length (list_tasks order state limit s)) ≤ limit)%Z)
  ∧ ((Z.of_nat (size (tasks s)) ≤ limit)%Z →
     ∀ t, matching t → t ∈ list_tasks order state limit s)
  ∧ ((limit < 0)%Z →
     list_tasks order state limit s `prefix_of`
       list_tasks order state (Z.of_nat (size (tasks s))) s
     ∧ length (list_tasks order state limit s) =
         (length (list_tasks order state (Z.of_nat (size (tasks s))) s)
          - Z.to_nat (- limit))%nat).
Proof.
  intros s order matching.
  pose proof (keys_in_order_sound calls init_system [] init_ordered_keys)
    as Hord.
  fold s order in Hord.
  destruct (tasks_values_length order s Hord) as [Hlen _].
  set (filtered :=
    match state with
    | Some st => filter (λ t, status_state t = st) (tasks_values order s)
    | None => tasks_values order s
    end).
  assert (∀ t, t ∈ filtered ↔ matching t) as Hfil.
  { intros t. unfold filtered, matching. destruct state as [st|].
    - rewrite list_elem_of_filter, (tasks_values_elem order s t Hord).
      split.
      + intros [Hst Hk]. split; [done|]. by intros ? [= <-].
      + intros [Hk Hst]. split; [by apply Hst|done].
    - rewrite (tasks_values_elem order s t Hord). split; [|by intros [? _]].
      intros Hk. split; [done|]. by intros ? [=]. }
  assert (length filtered ≤ size (tasks s))%nat as Hflen.
  { rewrite <- Hlen. unfold filtered. destruct state; [|done].
    apply length_filter. }
  assert (∀ l, list_tasks order state l s = slice_to l filtered) as Heq
    by (intros l; unfold list_tasks, filtered; by destruct state).
  rewrite !Heq.
  split; [|split; [|split; [|split]]].
  - intros t Ht. apply Hfil.
    by eapply elem_of_prefix; [|apply slice_to_prefix].
  - etrans; [apply slice_to_sublist|].
    unfold filtered. destruct state; [apply sublist_filter|done].
  - intros Hl. rewrite slice_to_length.
    destruct (0 <=? limit)%Z eqn:E; lia.
  - intros Hl t Ht. rewrite slice_to_all by lia. by apply Hfil.
  - intros Hl. rewrite (slice_to_all (Z.of_nat (size (tasks s)))) by lia.
    split; [apply slice_to_prefix|].
    rewrite slice_to_length. destruct (0 <=? limit)%Z eqn:E; lia.
Qed.

Lemma list_tasks_result_witness :
  let s := mgr (run script_three_tasks init_system) in
  let order := keys_in_order script_three_tasks init_system [] in
  order = ["b"; "a"; "c"]
  ∧ status_state <$> list_tasks order None 100 s
    = [SUBMITTED; WORKING; SUBMITTED]
  ∧ id <$> list_tasks order (Some SUBMITTED) 100 s = ["b"; "c"]
  ∧ id <$> list_tasks order None (-1) s = ["b"; "a"]
  ∧ (Z.of_nat (length (list_tasks order None 2 s)) ≤ 2)%Z
  ∧ length (list_tasks order None (-1) s) =
      (length (list_tasks order None (Z.of_nat (size (tasks s))) s)
       - Z.to_nat (- -1))%nat.
Proof.
  intros s order.
  destruct (list_tasks_result script_three_tasks None 2)
    as (_ & _ & Hbound & _).
  destruct (list_tasks_result script_three_tasks None (-1))
    as (_ & _ & _ & _ & Hneg).
  split; [reflexivity|]. split; [reflexivity|]. split; [reflexivity|].
  split; [reflexivity|].
  split; [apply Hbound; lia|].
  apply Hneg. lia.
Defined.

(** ** The JSON-RPC handlers *)

Lemma slice_from_suffix {A} (start : Z) (l : list A) :
  slice_from start l `suffix_of` l.
Proof. unfold slice_from. destruct (0 <=? start)%Z; apply suffix_drop. Qed.

Lemma slice_from_last {A} (n : Z) (l : list A) :
  (0 < n)%Z →
  slice_from (- n) l = drop (length l - Z.to_nat n) l
  ∧ length (slice_from (- n) l) = Nat.min (Z.to_nat n) (length l).
Proof.
  intros Hn. unfold slice_from.
  destruct (0 <=? - n)%Z eqn:E; [lia|].
  replace (- - n)%Z with n by lia. split; [done|].
  rewrite length_drop. lia.
Qed.

Lemma slice_from_first {A} (n : Z) (l : list A) :
  (n < 0)%Z → slice_from (- n) l = drop (Z.to_nat (- n)) l.
Proof.
  intros Hn. unfold slice_from. destruct (0 <=? - n)%Z eqn:E; [done|lia].
Qed.

(** X8: [handle_tasks_get] on a stored task leaves the state as it is and
    reports the id, state and timestamp of the task.  With
    [historyLength = n > 0] it returns the [n] most recent messages, in
    order (all of them when there are fewer); without it, or with 0, no
    history at all; and with a negative [n] the Python slice
    [history[-n:]] drops the [-n] oldest messages and returns the rest. *)
Theorem handle_tasks_get_history
    (s : State) (task_id : string) (task : Task) (n : option Z) :
  tasks s !! task_id = Some task →
  ∃ view,
    handle_tasks_get (inr (mkTaskGetParams task_id n)) s = (inr view, s)
    ∧ tv_id view = id task
    ∧ tv_state view = TaskState_value (status_state task)
    ∧ tv_timestamp view = timestamp (status task)
    ∧ match n with
      | None => tv_history view = None
      | Some n =>
          (n = 0%Z → tv_history view = None)
          ∧ ((0 < n)%Z →
             tv_history view =
               Some (message_view
                     <$> drop (length (history task) - Z.to_nat n)
                           (history task))
             ∧ length (default [] (tv_history view)) =
                 Nat.min (Z.to_nat n) (length (history task)))
          ∧ ((n < 0)%Z →
             tv_history view =
               Some (message_view <$> drop (Z.to_nat (- n)) (history task)))
      end.
Proof.
  intros Ht. unfold handle_tasks_get, get_task. simpl. rewrite Ht.
  eexists. split; [done|]. simpl. do 3 (split; [done|]).
  destruct n as [n|]; [|done].
  split; [by intros ->|]. split.
  - intros Hn. destruct (n =? 0)%Z eqn:E; [lia|].
    destruct (slice_from_last n (history task) Hn) as [-> Hlen].
    split; [done|]. simpl. rewrite length_fmap, length_drop. lia.
  - intros Hn. destruct (n =? 0)%Z eqn:E; [lia|].
    by rewrite slice_from_first.
Qed.

Lemma handle_tasks_get_history_witness :
  ∃ view,
    handle_tasks_get (inr (mkTaskGetParams "t1" (Some 2))) (mgr sys_history) =
      (inr view, mgr sys_history)
    ∧ tv_id view = "t1"
    ∧ tv_state view = "working"
    ∧ tv_history view = Some [message_view done_msg; message_view hello].
Proof.
  destruct (handle_tasks_get_history (mgr sys_history) "t1" task_history
              (Some 2)) as (view & Heq & Hid & Hst & _ & _ & Hpos & _).
  - reflexivity.
  - exists view. split; [exact Heq|]. split; [exact Hid|].
    split; [exact Hst|]. destruct Hpos as [-> _]; [lia|reflexivity].
Defined.

Section CallersProperties.

Variable format_state : TaskState → string.
Variable repr_str : string → string.

Lemma handle_tasks_send_cases params now s :
  (∃ detail,
     params = inl detail
     ∧ handle_tasks_send params now s =
         (inl (InvalidParams ("Invalid parameters: " +:+ detail)), s))
  ∨ (∃ send_params task s',
       params = inr send_params
       ∧ create_task (send_message send_params) (Some (send_id send_params))
           (Some (send_metadata send_params)) "" now s = (Ok task, s')
       ∧ tasks s' !! send_id send_params = Some task
       ∧ handle_tasks_send params now s =
           (inr (status_view task, id task), s')).
Proof.
  destruct params as [detail|p]; [left; by eexists|right].
  unfold handle_tasks_send.
  destruct (tasks s !! send_id p) as [t0|] eqn:Ht.
  - eexists p, _, _. split; [reflexivity|].
    rewrite (create_task_existing _ (Some (send_id p)) t0) by done.
    split; [reflexivity|].
    split; [|reflexivity]. simpl. apply lookup_insert_eq.
  - eexists p, _, _. split; [reflexivity|].
    rewrite (create_task_fresh _ (Some (send_id p))) by done.
    split; [reflexivity|].
    split; [|reflexivity]. simpl. apply lookup_insert_eq.
Qed.

Lemma handle_tasks_get_cases params s :
  (∃ detail,
     params = inl detail
     ∧ handle_tasks_get params s =
         (inl (InvalidParams ("Invalid parameters: " +:+ detail)), s))
  ∨ (∃ get_params,
       params = inr get_params
       ∧ tasks s !! get_id get_params = None
       ∧ handle_tasks_get params s =
           (inl (ManagerExn (TaskNotFoundError (get_id get_params))), s))
  ∨ (∃ get_params task view,
       params = inr get_params
       ∧ tasks s !! get_id get_params = Some task
       ∧ handle_tasks_get params s = (inr view, s)
       ∧ tv_id view = id task
       ∧ tv_state view = TaskState_value (status_state task)
       ∧ tv_timestamp view = timestamp (status task)).
Proof.
  destruct params as [detail|p]; [left; by eexists|right].
  unfold handle_tasks_get, get_task.
  destruct (tasks s !! get_id p) as [t0|] eqn:Ht.
  - right. by eexists _, _, _.
  - left. by eexists.
Qed.

Lemma handle_tasks_cancel_cases params now s :
  (∃ detail,
     params = inl detail
     ∧ handle_tasks_cancel params now s =
         (inl (InvalidParams ("Invalid parameters: " +:+ detail)), s))
  ∨ (∃ cancel_params,
       params = inr cancel_params
       ∧ tasks s !! cancel_id cancel_params = None
       ∧ handle_tasks_cancel params now s =
           (inl (ManagerExn (TaskNotFoundError (cancel_id cancel_params))),
            s))
  ∨ (∃ cancel_params task,
       params = inr cancel_params
       ∧ tasks s !! cancel_id cancel_params = Some task
       ∧ is_terminal (status_state task) = true
       ∧ handle_tasks_cancel params now s =
           (inl (ManagerExn (InvalidStateTransitionError
                               (status_state task) CANCELED)), s))
  ∨ (∃ cancel_params task task' s',
       params = inr cancel_params
       ∧ tasks s !! cancel_id cancel_params = Some task
       ∧ is_terminal (status_state task) = false
       ∧ cancel_task (cancel_id cancel_params) now s = (Ok task', s')
       ∧ tasks s' !! cancel_id cancel_params = Some task'
       ∧ status_state task' = CANCELED
       ∧ handle_tasks_cancel params now s = (inr (status_view task'), s')).
Proof.
  destruct params as [detail|p]; [left; by eexists|right].
  unfold handle_tasks_cancel.
  destruct (tasks s !! cancel_id p) as [t0|] eqn:Ht.
  - right. destruct (is_terminal (status_state t0)) eqn:Hterm.
    + left. unfold cancel_task.
      rewrite (update_status_rejected _ t0);
        [|done|by apply transition_allowed_terminal].
      by eexists _, _.
    + right.
      assert (transition_allowed (status_state t0) CANCELED = true) as Hv
        by by destruct (status_state t0).
      pose proof (update_status_accepted (cancel_id p) t0 CANCELED
        (Some (mkMessage agent [TextPart "Task was canceled by request."] ∅))
        now s Ht Hv) as Heq.
      eexists p, t0, _, _. split; [reflexivity|]. do 2 (split; [done|]).
      split; [exact Heq|]. split; [|split; [done|]].
      * match goal with |- context [broadcast ?r ?q ?s0] =>
          destruct (broadcast_frame r q s0) as (_ & -> & _) end.
        simpl. apply lookup_insert_eq.
      * unfold cancel_task. by rewrite Heq.
  - left. unfold cancel_task. rewrite update_status_missing by done.
    by eexists.
Qed.


(** X10: a result answer of [handle_jsonrpc] reports the id, state
    and timestamp of a task that is stored when the call returns.
    [tasks/send] with valid parameters always gives a result and always
    schedules one [process_task] for the task, whether the id is new
    (the task is then [submitted], with the message and the metadata
    of the request) or already stored (the task keeps its status and
    metadata and gets the message appended); [tasks/get] changes
    nothing; [tasks/cancel] leaves the task [CANCELED]; neither of the
    two schedules anything. *)
Theorem handle_jsonrpc_results (r : JsonRpcRequest) (now : Z) (s : State) :
  let rsp := (handle_jsonrpc format_state repr_str (Request r) now s).1.1 in
  let scheduled :=
    (handle_jsonrpc format_state repr_str (Request r) now s).1.2 in
  let s' := (handle_jsonrpc format_state repr_str (Request r) now s).2 in
  (∀ p,
     rpc_method r = "tasks/send" → as_send r = inr p →
     ∃ task,
       tasks s' !! send_id p = Some task
       ∧ rsp_result rsp = Some (status_view task)
       ∧ scheduled = [id task]
       ∧ (tasks s !! send_id p = None →
          task = mkTask (send_id p) (mkTaskStatus SUBMITTED None now) []
                   [send_message p] (send_metadata p))
       ∧ (∀ t0, tasks s !! send_id p = Some t0 →
                task = history_append (send_message p) t0))
  ∧ (∀ view,
       rsp_result rsp = Some view →
       rsp_id rsp = rpc_id r
       ∧ ∃ key task,
           tasks s' !! key = Some task
           ∧ tv_id view = id task
           ∧ tv_state view = TaskState_value (status_state task)
           ∧ tv_timestamp view = timestamp (status task)
           ∧ (rpc_method r = "tasks/get" → s' = s ∧ scheduled = [])
           ∧ (rpc_method r = "tasks/cancel" →
              status_state task = CANCELED ∧ scheduled = [])).
Proof.
  cbn [handle_jsonrpc]. split.
  - intros p Hm Hp. rewrite decide_True by done. rewrite Hp.
    unfold handle_tasks_send.
    destruct (tasks s !! send_id p) as [t0|] eqn:Ht.
    + rewrite (create_task_existing _ (Some (send_id p)) t0) by done.
      simpl. eexists. split; [apply lookup_insert_eq|].
      do 2 (split; [done|]). split; [done|]. by intros ? [= <-].
    + rewrite (create_task_fresh _ (Some (send_id p))) by done.
      simpl. eexists. split; [apply lookup_insert_eq|].
      do 2 (split; [done|]). split; [done|]. done.
  - intros view.
    destruct (decide (rpc_method r = "tasks/send")) as [Hm|Hm1].
    { destruct (handle_tasks_send_cases (as_send r) now s)
        as [(d & Hp & ->)|(p & task & s' & Hp & _ & Hl & ->)]; simpl;
        [done|].
      intros [= <-]. split; [done|]. exists (send_id p), task.
      split; [done|]. do 3 (split; [done|]).
      rewrite Hm. by split. }
    destruct (decide (rpc_method r = "tasks/get")) as [Hm|Hm2].
    { destruct (handle_tasks_get_cases (as_get r) s)
        as [(d & Hp & ->)|[(p & Hp & Hn & ->)
            |(p & task & view' & Hp & Hl & -> & Hid & Hst & Hts)]]; simpl;
        [done|done|].
      intros [= <-]. split; [done|]. exists (get_id p), task.
      split; [done|]. do 3 (split; [done|]).
      rewrite Hm. by split. }
    destruct (decide (rpc_method r = "tasks/cancel")) as [Hm|Hm3].
    { destruct (handle_tasks_cancel_cases (as_cancel r) now s)
        as [(d & Hp & ->)|[(p & Hp & Hn & ->)
            |[(p & task & Hp & Ht & Hterm & ->)
             |(p & task & task' & s' & Hp & _ & _ & _ & Hl & Hc & ->)]]];
        simpl; [done|done|done|].
      intros [= <-]. split; [done|]. exists (cancel_id p), task'.
      split; [done|]. do 3 (split; [done|]).
      rewrite Hm. by split. }
    done.
Qed.

End CallersProperties.


Lemma handle_jsonrpc_results_witness :
  let out :=
    handle_jsonrpc TaskState_value (λ k, k) (Request request_send_t1) 103
      (mgr sys_failed) in
  ∃ task,
    tasks out.2 !! "t1" = Some task
    ∧ rsp_result out.1.1 = Some (status_view task)
    ∧ out.1.2 = [id task]
    ∧ task = history_append done_msg task_failed.
Proof.
  intros out.
  destruct (handle_jsonrpc_results TaskState_value (λ k, k) request_send_t1
              103 (mgr sys_failed)) as [Hsend _].
  destruct (Hsend (mkTaskSendParams "t1" done_msg {[ "k" := AInt 1 ]})
              eq_refl eq_refl) as (task & Hl & Hr & Hsch & _ & Hold).
  exists task. split; [exact Hl|]. split; [exact Hr|]. split; [exact Hsch|].
  apply Hold. reflexivity.
Defined.

(** ** [process_task] *)

Lemma fail_task_outcome task_id text now s :
  (∃ task0 task' s',
     tasks s !! task_id = Some task0
     ∧ is_terminal (status_state task0) = false
     ∧ fail_task task_id text now s = (Ok task', s')
     ∧ task' = updated_task FAILED (Some (messageWithReason text)) now task0
     ∧ tasks s' !! task_id = Some task'
     ∧ objects s' = objects s)
  ∨ (∃ e,
       fail_task task_id text now s = (Raise e, s)
       ∧ ((tasks s !! task_id = None ∧ e = TaskNotFoundError task_id)
          ∨ ∃ task0,
              tasks s !! task_id = Some task0
              ∧ is_terminal (status_state task0) = true
              ∧ e = InvalidStateTransitionError (status_state task0) FAILED)).
Proof.
  unfold fail_task. fold (messageWithReason text).
  destruct (tasks s !! task_id) as [t0|] eqn:Ht.
  - destruct (is_terminal (status_state t0)) eqn:Hterm.
    + right. eexists. split.
      * apply (update_status_rejected _ t0); [done|].
        by apply transition_allowed_terminal.
      * right. by exists t0.
    + left.
      assert (transition_allowed (status_state t0) FAILED = true) as Hv
        by by destruct (status_state t0).
      eexists t0, _, _. do 2 (split; [done|]).
      split; [by apply update_status_accepted|]. split; [done|].
      match goal with |- context [broadcast ?r ?q ?s0] =>
        destruct (broadcast_frame r q s0) as (-> & -> & _) end.
      simpl. split; [apply lookup_insert_eq|done].
  - right. eexists. split; [by apply update_status_missing|]. by left.
Qed.



Section ProcessingProperties.

Variable format_state : TaskState → string.
Variable repr_str : string → string.
Variable str_strip : string → string.





(** X12: [process_task] runs the analysis only for a task it finds
    [SUBMITTED] or [INPUT_REQUIRED].  For an id that is not stored it
    ends with [TaskNotFoundError]; for a task in a terminal state it
    ends with [InvalidStateTransitionError]; both leave the manager
    unchanged.  For a task that is already [WORKING], as after a second
    [tasks/send] on the id of a task under processing, the rejected
    transition to [WORKING] is handled by [fail_task]: the step returns
    with the task [FAILED], its status message being the text of the
    rejection. *)
Theorem process_task_start
    (now now' : Z) (task_id : string) (s : State) :
  let step :=
    process_task_step format_state repr_str str_strip now now'
      (ProcCreated task_id) Start s in
  (tasks s !! task_id = None →
   step = (ProcRaised (ManagerExn (TaskNotFoundError task_id)), s))
  ∧ ∀ task,
      tasks s !! task_id = Some task →
      (is_terminal (status_state task) = true →
       step = (ProcRaised (ManagerExn
                 (InvalidStateTransitionError (status_state task) FAILED)),
               s))
      ∧ (status_state task = WORKING →
         step.1 = ProcReturned
         ∧ tasks step.2 !! task_id =
             Some (updated_task FAILED
                     (Some (messageWithReason
                              (error_str format_state repr_str
                                 (InvalidStateTransitionError WORKING
                                    WORKING))))
                     now task)).
Proof.
  intros step. subst step. cbn [process_task_step]. split.
  - intros Hnone. rewrite update_status_missing by done.
    unfold on_error, fail_task. by rewrite update_status_missing.
  - intros task Ht. split.
    + intros Hterm.
      rewrite (update_status_rejected _ task)
        by (try done; by apply transition_allowed_terminal).
      unfold on_error, fail_task.
      by rewrite (update_status_rejected _ task)
        by (try done; by apply transition_allowed_terminal).
    + intros Hw.
      rewrite (update_status_rejected _ task) by (try done; by rewrite Hw).
      rewrite Hw. unfold on_error.
      destruct (fail_task_outcome task_id
                  (error_str format_state repr_str
                     (InvalidStateTransitionError WORKING WORKING)) now s)
        as [(t0 & t' & s' & Ht0 & Hn & -> & -> & Hl & _)
           |(e & _ & [[Ht0 _]|(t0 & Ht0 & Hterm & _)])].
      * simpl. split; [done|]. by simplify_eq.
      * congruence.
      * simplify_eq. by rewrite Hw in Hterm.
Qed.

Lemma scan_parts_texts ps j acc :
  has_file ps = false → scan_parts ps j acc = inl (acc ++ part_texts ps).
Proof.
  revert j acc. induction ps as [|[text|file|data] ps IH]; intros j acc Hf.
  - simpl. by rewrite app_nil_r.
  - simpl in *. rewrite IH by done. by rewrite <- app_assoc.
  - done.
  - simpl in *. by rewrite IH.
Qed.

Lemma scan_history_texts h i acc :
  no_user_file h = true → scan_history h i acc = ScanDone (acc ++ user_texts h).
Proof.
  revert i acc. induction h as [|msg h IH]; intros i acc Hf.
  - simpl. by rewrite app_nil_r.
  - simpl in Hf. apply andb_prop in Hf as [Hm Hh]. simpl.
    destruct (role msg).
    + apply negb_true_iff in Hm.
      rewrite scan_parts_texts by done. rewrite IH by done.
      by rewrite <- app_assoc.
    + by rewrite IH.
Qed.

(** X13: a run that nobody disturbs.  For a task found [SUBMITTED] or
    [INPUT_REQUIRED] whose user messages carry no file, the first step
    makes the task [WORKING] and awaits the review of the stripped
    text made of the text parts of the user messages, in order, joined
    by blank lines (agent messages and data parts do not count).  When
    the review succeeds, the next step attaches one new artifact at the
    end of the artifacts, with its position as index, appends the
    summary as an agent message, and returns with the task
    [COMPLETED]. *)
Theorem process_task_success
    (now now' now2 now2' : Z) (task_id : string) (s : State) (task : Task)
    (error : option string) (summary report : string) :
  tasks s !! task_id = Some task →
  status_state task = SUBMITTED ∨ status_state task = INPUT_REQUIRED →
  no_user_file (history task) = true →
  str_strip (String.concat two_newlines (user_texts (history task))) ≠ "" →
  let input_data :=
    mkContractInput task_id
      (str_strip (String.concat two_newlines (user_texts (history task))))
      (metadata task) in
  let step1 :=
    process_task_step format_state repr_str str_strip now now'
      (ProcCreated task_id) Start s in
  let step2 :=
    process_task_step format_state repr_str str_strip now2 now2'
      step1.1 (GotReview (Reviewed true error summary report)) step1.2 in
  let done_message := mkMessage agent [TextPart summary] ∅ in
  step1.1 = ProcReviewing task_id input_data
  ∧ tasks step1.2 !! task_id = Some (updated_task WORKING None now task)
  ∧ step2.1 = ProcReturned
  ∧ tasks step2.2 !! task_id =
      Some (mkTask (id task)
              (mkTaskStatus COMPLETED (Some done_message) now2)
              (artifacts task ++ [length (objects s)])
              (history task ++ [done_message])
              (metadata task))
  ∧ objects step2.2 !! length (objects s) =
      Some (set_index (Z.of_nat (length (artifacts task)))
              (analysis_artifact report)).
Proof.
  intros Ht Hst Hfiles Htext input_data step1 step2 done_message.
  assert (transition_allowed (status_state task) WORKING = true) as Hv
    by (destruct Hst as [-> | ->]; done).
  set (task1 := updated_task WORKING None now task).
  set (s1 := broadcast (_task_to_result task1)
               (default [] (subscribers s !! task_id))
               (set_tasks (<[task_id := task1]> (tasks s)) s)).
  assert (tasks s1 !! task_id = Some task1 ∧ objects s1 = objects s)
    as [Hl1 Ho1].
  { unfold s1.
    match goal with |- context [broadcast ?r ?q ?s0] =>
      destruct (broadcast_frame r q s0) as (-> & -> & _) end.
    simpl. split; [apply lookup_insert_eq|done]. }
  assert (step1 = (ProcReviewing task_id input_data, s1)) as Hstep1.
  { unfold step1. cbn [process_task_step].
    rewrite (update_status_accepted _ task) by done. fold task1 s1.
    unfold get_task. rewrite Hl1.
    change (history task1) with (history task).
    rewrite scan_history_texts by done. cbn [app after_scan].
    rewrite decide_False by done. by rewrite Hl1. }
  rewrite Hstep1 in *. cbn [fst snd] in *.
  split; [done|]. split; [done|].
  unfold step2. rewrite Hstep1. cbn [fst snd process_task_step negb].
  set (s1' := set_objects (objects s1 ++ [analysis_artifact report]) s1).
  assert (tasks s1' !! task_id = Some task1) as Hl1' by done.
  rewrite (add_artifact_found _ task1) by done.
  set (task2 := artifacts_append (length (objects s1)) task1).
  match goal with |- context [broadcast ?r ?q ?s0] =>
    set (s2 := broadcast r q s0) end.
  assert (tasks s2 !! task_id = Some task2
          ∧ objects s2 !! length (objects s) =
              Some (set_index (Z.of_nat (length (artifacts task)))
                      (analysis_artifact report))) as [Hl2 Ho2].
  { unfold s2.
    match goal with |- context [broadcast ?r ?q ?s0] =>
      destruct (broadcast_frame r q s0) as (-> & -> & _) end.
    simpl. split; [apply lookup_insert_eq|].
    rewrite Ho1. rewrite list_lookup_alter_eq.
    by rewrite lookup_app_r, Nat.sub_diag. }
  assert (transition_allowed (status_state task2) COMPLETED = true) as Hv2
    by done.
  unfold complete_task.
  rewrite (update_status_accepted _ task2) by done. cbn [fst snd].
  match goal with |- context [broadcast ?r ?q ?s0] =>
    destruct (broadcast_frame r q s0) as (-> & -> & _) end.
  simpl. split; [done|]. rewrite lookup_insert_eq.
  split; [|exact Ho2].
  unfold task2, task1, done_message. by rewrite Ho1.
Qed.

(** X14: the same start on a task whose user messages hold no text
    (no text parts, or only text that [strip()] empties): the first
    step makes the task [WORKING], then [FAILED] with the reason
    [No contract text provided] as its agent message, and returns;
    [run_contract_review] is never awaited. *)
Theorem process_task_without_text
    (now now' : Z) (task_id : string) (s : State) (task : Task) :
  tasks s !! task_id = Some task →
  status_state task = SUBMITTED ∨ status_state task = INPUT_REQUIRED →
  no_user_file (history task) = true →
  str_strip (String.concat two_newlines (user_texts (history task))) = "" →
  let step :=
    process_task_step format_state repr_str str_strip now now'
      (ProcCreated task_id) Start s in
  let reason := messageWithReason "No contract text provided" in
  step.1 = ProcReturned
  ∧ tasks step.2 !! task_id =
      Some (mkTask (id task) (mkTaskStatus FAILED (Some reason) now')
              (artifacts task) (history task ++ [reason]) (metadata task)).
Proof.
  intros Ht Hst Hfiles Htext step reason.
  assert (transition_allowed (status_state task) WORKING = true) as Hv
    by (destruct Hst as [-> | ->]; done).
  set (task1 := updated_task WORKING None now task).
  set (s1 := broadcast (_task_to_result task1)
               (default [] (subscribers s !! task_id))
               (set_tasks (<[task_id := task1]> (tasks s)) s)).
  assert (tasks s1 !! task_id = Some task1) as Hl1.
  { unfold s1.
    match goal with |- context [broadcast ?r ?q ?s0] =>
      destruct (broadcast_frame r q s0) as (_ & -> & _) end.
    simpl. apply lookup_insert_eq. }
  unfold step. cbn [process_task_step].
  rewrite (update_status_accepted _ task) by done. fold task1 s1.
  unfold get_task. rewrite Hl1.
  change (history task1) with (history task).
  rewrite scan_history_texts by done. cbn [app after_scan].
  rewrite decide_True by done. unfold fail_and_return.
  destruct (fail_task_outcome task_id "No contract text provided" now' s1)
    as [(t0 & t' & s' & Ht0 & Hn & -> & -> & Hl & _)
       |(e & _ & [[Ht0 _]|(t0 & Ht0 & Hterm & _)])].
  - simpl. split; [done|]. rewrite Hl. by simplify_eq.
  - congruence.
  - by simplify_eq.
Qed.

End ProcessingProperties.


Lemma process_task_start_witness :
  let step :=
    process_task_step TaskState_value (λ k, k) (λ text, text) 103 104
      (ProcCreated "t1") Start (mgr sys_history) in
  step.1 = ProcReturned
  ∧ tasks step.2 !! "t1" =
      Some (updated_task FAILED
              (Some (messageWithReason
                       "Cannot transition from working to working"))
              103 task_history).
Proof.
  destruct (process_task_start TaskState_value (λ k, k) (λ text, text)
              103 104 "t1" (mgr sys_history)) as [_ Hstored].
  destruct (Hstored task_history) as [_ Hworking].
  - reflexivity.
  - apply Hworking. reflexivity.
Defined.

Lemma process_task_success_witness :
  let step1 :=
    process_task_step TaskState_value (λ k, k) (λ text, text) 101 102
      (ProcCreated "t1") Start (mgr sys_t1) in
  let step2 :=
    process_task_step TaskState_value (λ k, k) (λ text, text) 103 104
      step1.1 (GotReview (Reviewed true None "fine" "# Report")) step1.2 in
  step1.1 = ProcReviewing "t1" (mkContractInput "t1" "hello" ∅)
  ∧ tasks step1.2 !! "t1" = Some (updated_task WORKING None 101 task_t1)
  ∧ step2.1 = ProcReturned
  ∧ tasks step2.2 !! "t1" =
      Some (mkTask "t1"
              (mkTaskStatus COMPLETED
                 (Some (mkMessage agent [TextPart "fine"] ∅)) 103)
              [0%nat] [hello; mkMessage agent [TextPart "fine"] ∅] ∅)
  ∧ objects step2.2 !! 0%nat =
      Some (set_index 0 (analysis_artifact "# Report")).
Proof.
  apply (process_task_success TaskState_value (λ k, k) (λ text, text)
           101 102 103 104 "t1" (mgr sys_t1) task_t1 None "fine" "# Report").
  - reflexivity.
  - left. reflexivity.
  - reflexivity.
  - discriminate.
Defined.

Lemma process_task_without_text_witness :
  let step :=
    process_task_step TaskState_value (λ k, k) (λ text, text) 101 102
      (ProcCreated "t1") Start (mgr sys_no_text) in
  step.1 = ProcReturned
  ∧ tasks step.2 !! "t1" =
      Some (mkTask "t1"
              (mkTaskStatus FAILED
                 (Some (messageWithReason "No contract text provided")) 102)
              [] [data_msg; messageWithReason "No contract text provided"] ∅).
Proof.
  apply (process_task_without_text TaskState_value (λ k, k) (λ text, text)
           101 102 "t1" (mgr sys_no_text) task_no_text).
  - reflexivity.
  - left. reflexivity.
  - reflexivity.
  - reflexivity.
Defined.

(** ** The event stream *)

(** X15: the event stream of [task_event_generator].  For an id that is
    not stored it consists of one [error] event naming the id, after
    which it ends, and the manager is unchanged.  For a stored task, in
    every reachable system, its first event is a [task_update] with the
    id, state and timestamp of the task, with the status message exactly
    when the status has one, and with the artifacts exactly when the
    task has at least one. *)
Theorem task_event_stream_start :
  (∀ (s : State) (task_id : string),
     tasks s !! task_id = None →
     event_anext (EvCreated task_id) s =
       (Ok (EvYield (ErrorEvent task_id), EvErrorYielded), s)
     ∧ event_anext EvErrorYielded s = (Ok (EvStop, EvClosed), s))
  ∧ (∀ (sys : System) (task_id : string) (task : Task),
       reachable sys →
       tasks (mgr sys) !! task_id = Some task →
       ∃ data inner s',
         event_anext (EvCreated task_id) (mgr sys) =
           (Ok (EvYield (TaskUpdate data), EvStreaming task_id inner), s')
         ∧ ev_id data = task_id
         ∧ ev_state data = TaskState_value (status_state task)
         ∧ ev_timestamp data = timestamp (status task)
         ∧ ev_message data = message_view <$> message (status task)
         ∧ (is_Some (ev_artifacts data) ↔ artifacts task ≠ [])
         ∧ tasks s' = tasks (mgr sys)).
Proof.
  split.
  - intros s task_id Hnone. split; [|done].
    cbn [event_anext]. unfold event_loop.
    by rewrite anext_created_missing.
  - intros sys task_id task Hreach Ht.
    destruct (reachable_consistent sys Hreach) as [Hk _ _].
    assert (is_Some (subscribers (mgr sys) !! task_id)) as [qs Hqs].
    { apply elem_of_dom. rewrite <- Hk. by apply elem_of_dom. }
    destruct (reachable_task_id sys task_id task Hreach Ht) as [Hid _].
    cbn [event_anext]. unfold event_loop.
    rewrite (anext_created_found _ task qs) by done.
    eexists _, _, _. split; [done|]. simpl.
    do 4 (split; [done|]). split; [|done].
    destruct (artifacts task); [|done]. split; [by intros [? ?]|done].
Qed.

Lemma task_event_stream_start_witness :
  (event_anext (EvCreated "t9") (mgr sys_failed) =
     (Ok (EvYield (ErrorEvent "t9"), EvErrorYielded), mgr sys_failed)
   ∧ event_anext EvErrorYielded (mgr sys_failed) =
       (Ok (EvStop, EvClosed), mgr sys_failed))
  ∧ ∃ data inner s',
      event_anext (EvCreated "t1") (mgr sys_failed) =
        (Ok (EvYield (TaskUpdate data), EvStreaming "t1" inner), s')
      ∧ ev_id data = "t1"
      ∧ ev_state data = TaskState_value (status_state task_failed)
      ∧ ev_timestamp data = timestamp (status task_failed)
      ∧ ev_message data = message_view <$> message (status task_failed)
      ∧ (is_Some (ev_artifacts data) ↔ artifacts task_failed ≠ [])
      ∧ tasks s' = tasks (mgr sys_failed).
Proof.
  split.
  - apply (proj1 task_event_stream_start (mgr sys_failed) "t9"). reflexivity.
  - apply (proj2 task_event_stream_start sys_failed "t1" task_failed).
    + exact (run_reachable script_failed init_system reachable_init).
    + reflexivity.
Defined.

(** ** The application as a client of the manager *)







Section ApplicationProperties.

Variable format_state : TaskState → string.
Variable repr_str : string → string.
Variable str_strip : string → string.





End ApplicationProperties.


(** ** What a subscriber receives *)

Lemma queue_change_wf s items queue :
  registry_wf s →
  registry_wf (set_queues (<[queue := items]> (queues s)) s).
Proof.
  intros Hwf. eapply registry_step_wf; [exact Hwf|].
  apply registry_same; [done|]. simpl. by rewrite length_insert.
Qed.

Lemma stream_delivery pre :
  ∀ g task_id queue s last post,
    resumes_in_loop g task_id queue →
    registry_wf s →
    registered task_id queue s →
    queues s !! queue = Some (pre ++ last :: post) →
    Forall (λ r, is_terminal (state (res_status r)) = false) pre →
    is_terminal (state (res_status last)) = true →
    ∃ s',
      consume (length pre + 2) g s =
        ((Ok ∘ Yield <$> pre ++ [last]) ++ [Ok StopAsyncIteration],
         GenClosed, s')
      ∧ (∀ id0 qs, subscribers s' !! id0 = Some qs → queue ∉ qs)
      ∧ queues s' = <[queue := post]> (queues s)
      ∧ tasks s' = tasks s
      ∧ objects s' = objects s.
Proof.
  induction pre as [|r pre IH];
    intros g task_id queue s last post Hg Hwf Hreg Hq Hpre Hlast.
  - assert (anext g s = subscribe_loop task_id queue s) as Hstep.
    { destruct Hg as [->|(r0 & -> & Hr0)]; [done|]. cbn [anext].
      by rewrite Hr0. }
    cbn [length Nat.add consume]. rewrite Hstep, subscribe_loop_eq, Hq.
    cbn [app anext]. rewrite Hlast.
    set (s1 := set_queues (<[queue := post]> (queues s)) s).
    assert (registered task_id queue s1) as Hreg1.
    { apply (registered_queues_changed _ _ s); [done| |done].
      simpl. by rewrite length_insert. }
    destruct (finally_unregisters task_id queue s1
                (queue_change_wf s post queue Hwf) Hreg1)
      as (s' & Hfin & Hgone & _ & Hqs & Hta & Ho).
    unfold_M. rewrite Hfin. exists s'. simpl. by rewrite Hqs, Hta, Ho.
  - assert (anext g s = subscribe_loop task_id queue s) as Hstep.
    { destruct Hg as [->|(r0 & -> & Hr0)]; [done|]. cbn [anext].
      by rewrite Hr0. }
    apply Forall_cons in Hpre as [Hr Hpre].
    cbn [length Nat.add consume]. rewrite Hstep, subscribe_loop_eq, Hq.
    cbn [app].
    set (s1 := set_queues (<[queue := pre ++ last :: post]> (queues s)) s).
    destruct (IH (GenYielded task_id queue r) task_id queue s1 last post)
      as (s' & Hc & Hgone & Hqs & Hta & Ho); try done.
    + right. by exists r.
    + by apply queue_change_wf.
    + apply (registered_queues_changed _ _ s); [done| |done].
      simpl. by rewrite length_insert.
    + simpl. apply list_lookup_insert_eq. by eapply lookup_lt_Some.
    + rewrite Hc. exists s'. split; [done|]. split; [done|].
      split; [|done]. rewrite Hqs. simpl. apply list_insert_insert_eq.
Qed.

(** X17: in every reachable system, a subscriber that is suspended in
    its loop and finds in its queue the snapshots [pre], none of them
    terminal, followed by a terminal snapshot [last], receives [pre] in
    the order of the queue, then [last], and then the end of the stream,
    whatever was queued behind [last]; its queue is then listed under no
    task any more, and the tasks, the artifact objects and the queues of
    the other subscribers are as before. *)
Theorem subscriber_receives_queue_in_order
    (sys : System) (g : nat) (gen : Gen) (task_id : string) (queue : qref)
    (pre : list TaskResult) (last : TaskResult) (post : list TaskResult) :
  reachable sys →
  gens sys !! g = Some gen →
  resumes_in_loop gen task_id queue →
  queues (mgr sys) !! queue = Some (pre ++ last :: post) →
  Forall (λ r, is_terminal (state (res_status r)) = false) pre →
  is_terminal (state (res_status last)) = true →
  ∃ s',
    consume (length pre + 2) gen (mgr sys) =
      ((Ok ∘ Yield <$> pre ++ [last]) ++ [Ok StopAsyncIteration],
       GenClosed, s')
    ∧ (∀ id0 qs, subscribers s' !! id0 = Some qs → queue ∉ qs)
    ∧ (∀ q', q' ≠ queue → queues s' !! q' = queues (mgr sys) !! q')
    ∧ tasks s' = tasks (mgr sys)
    ∧ objects s' = objects (mgr sys).
Proof.
  intros Hreach Hg Hloop Hq Hpre Hlast.
  pose proof (reachable_registry_wf sys Hreach) as Hwf.
  destruct (reachable_consistent sys Hreach) as [_ Hr _].
  assert (gen_queue gen = Some (task_id, queue)) as Hgq
    by (destruct Hloop as [->|(r0 & -> & _)]; done).
  destruct (stream_delivery pre gen task_id queue (mgr sys) last post
              Hloop Hwf (Hr _ _ _ _ Hg Hgq) Hq Hpre Hlast)
    as (s' & Hc & Hgone & Hqs & Hta & Ho).
  exists s'. split; [done|]. split; [done|]. split; [|done].
  intros q' Hne. rewrite Hqs. by apply list_lookup_insert_ne.
Qed.

Lemma subscriber_receives_queue_in_order_witness :
  ∃ s',
    consume (length [snapshot_working] + 2) (GenListening "t1" 0%nat)
      (mgr sys_queued) =
      ((Ok ∘ Yield <$> [snapshot_working] ++ [snapshot_failed])
       ++ [Ok StopAsyncIteration], GenClosed, s')
    ∧ (∀ id0 qs, subscribers s' !! id0 = Some qs → 0%nat ∉ qs)
    ∧ (∀ q', q' ≠ 0%nat → queues s' !! q' = queues (mgr sys_queued) !! q')
    ∧ tasks s' = tasks (mgr sys_queued)
    ∧ objects s' = objects (mgr sys_queued).
Proof.
  apply (subscriber_receives_queue_in_order sys_queued 0%nat
           (GenListening "t1" 0%nat) "t1" 0%nat [snapshot_working]
           snapshot_failed [snapshot_artifact]).
  - exact (run_reachable script_queued init_system reachable_init).
  - reflexivity.
  - by left.
  - reflexivity.
  - repeat constructor.
  - reflexivity.
Defined.

(** ** A second [tasks/send] while the task is processed *)

Section ResendProperties.

Variable format_state : TaskState → string.
Variable repr_str : string → string.
Variable str_strip : string → string.

(** X18: [tasks/send] on the id of a task that is [WORKING] answers
    with state [working], appends the message and schedules
    [process_task] once more; the first step of that second
    [process_task] then ends with the task [FAILED], the rejection of
    the transition from [WORKING] to [WORKING] being its status
    message: sending a message to a task under processing fails the
    task. *)
Theorem resend_while_working_fails_task
    (s : State) (task : Task) (r : JsonRpcRequest) (p : TaskSendParams)
    (now now1 now1' : Z) :
  tasks s !! send_id p = Some task →
  id task = send_id p →
  status_state task = WORKING →
  rpc_method r = "tasks/send" →
  as_send r = inr p →
  let out := handle_jsonrpc format_state repr_str (Request r) now s in
  let step :=
    process_task_step format_state repr_str str_strip now1 now1'
      (ProcCreated (send_id p)) Start out.2 in
  let rejection :=
    messageWithReason
      (error_str format_state repr_str
         (InvalidStateTransitionError WORKING WORKING)) in
  out.1.2 = [send_id p]
  ∧ (tv_state <$> rsp_result out.1.1) = Some "working"
  ∧ step.1 = ProcReturned
  ∧ tasks step.2 !! send_id p =
      Some (mkTask (id task) (mkTaskStatus FAILED (Some rejection) now1)
              (artifacts task)
              (history task ++ [send_message p; rejection])
              (metadata task)).
Proof.
  intros Ht Hid Hw Hm Hp out step rejection.
  set (task1 := history_append (send_message p) task).
  set (s1 := set_tasks (<[send_id p := task1]> (tasks s)) s).
  assert (out = (make_success_response (rpc_id r) (status_view task1),
                 [id task1], s1)) as Hout.
  { unfold out. cbn [handle_jsonrpc]. rewrite decide_True by done.
    rewrite Hp. unfold handle_tasks_send.
    by rewrite (create_task_existing _ (Some (send_id p)) task). }
  rewrite Hout. cbn [fst snd]. split; [by rewrite <- Hid|].
  split; [simpl; unfold status_state in Hw; by rewrite Hw|].
  assert (tasks s1 !! send_id p = Some task1) as Hl1
    by apply lookup_insert_eq.
  assert (status_state task1 = WORKING) as Hw1 by done.
  unfold step. rewrite Hout. cbn [snd process_task_step].
  rewrite (update_status_rejected _ task1) by (try done; by rewrite Hw1).
  rewrite Hw1. unfold on_error. fold rejection.
  destruct (fail_task_outcome (send_id p)
              (error_str format_state repr_str
                 (InvalidStateTransitionError WORKING WORKING)) now1 s1)
    as [(t0 & t' & s' & Ht0 & Hn & -> & -> & Hl & _)
       |(e & _ & [[Ht0 _]|(t0 & Ht0 & Hterm & _)])].
  - simpl. split; [done|]. rewrite Hl. simplify_eq.
    unfold updated_task, task1, history_append, set_status, rejection.
    simpl. by rewrite <- app_assoc.
  - congruence.
  - simplify_eq. by rewrite Hw1 in Hterm.
Qed.

End ResendProperties.

Lemma resend_while_working_fails_task_witness :
  let out :=
    handle_jsonrpc TaskState_value (λ k, k) (Request request_send_t1) 103
      (mgr sys_history) in
  let step :=
    process_task_step TaskState_value (λ k, k) (λ text, text) 104 105
      (ProcCreated "t1") Start out.2 in
  let rejection :=
    messageWithReason "Cannot transition from working to working" in
  out.1.2 = ["t1"]
  ∧ (tv_state <$> rsp_result out.1.1) = Some "working"
  ∧ step.1 = ProcReturned
  ∧ tasks step.2 !! "t1" =
      Some (mkTask "t1" (mkTaskStatus FAILED (Some rejection) 104) []
              [hello; done_msg; hello; done_msg; rejection] ∅).
Proof.
  apply (resend_while_working_fails_task TaskState_value (λ k, k)
           (λ text, text) (mgr sys_history) task_history request_send_t1
           (mkTaskSendParams "t1" done_msg {[ "k" := AInt 1 ]}) 103 104 105).
  - reflexivity.
  - reflexivity.
  - reflexivity.
  - reflexivity.
  - reflexivity.
Defined.
